(** * Footfall counter: line-crossing counting over per-track position history

    A shallow embedding of [src/footFallCounter.py] (class [FootfallCounter]):
    the construction of the counter, the per-detection body of
    [process_frame] and the frame loop, followed by the properties of the
    counting logic. *)

From Stdlib Require Import ZArith QArith Qround Qpower Floats Lia.
From stdpp Require Import gmap list.

Local Open Scope Z_scope.

(** ** Python values *)

(** The exceptions the modelled code can raise. [LibraryError] stands for
    what a call into a library raises ([cv2.error], an error of the model
    loader, ...). *)
Inductive py_exception : Type :=
  | ValueError
  | OverflowError
  | LibraryError.

(** A computation that returns a value or raises. *)
Definition result (A : Type) : Type := (py_exception + A)%type.

Definition ret {A} (a : A) : result A := inr a.
Definition raise {A} (e : py_exception) : result A := inl e.
Definition bind {A B} (m : result A) (k : A -> result B) : result B :=
  match m with
  | inl e => inl e
  | inr a => k a
  end.

Notation "'do' x <- m ; k" := (bind m (fun x => k))
  (at level 10, x name, m at level 100, k at level 200).

(** Python floats are binary64 numbers: Rocq's primitive [float]. *)

(** [int(x)] for a float [x]: truncation toward zero; NaN raises ValueError,
    an infinity raises OverflowError. *)
Definition py_int (x : float) : result Z :=
  match Prim2SF x with
  | S754_nan => raise ValueError
  | S754_infinity _ => raise OverflowError
  | S754_zero _ => ret 0
  | S754_finite s m e => ret (cond_Zopp s (Z.shiftl (Zpos m) e))
  end.

(** The implicit conversion of an int operand of a float operation:
    round to nearest even, OverflowError when out of range. *)
Definition py_float_of_int (n : Z) : result float :=
  let f := SF2Prim (binary_normalize prec emax n 0 false) in
  if is_infinity f then raise OverflowError else ret f.

(** The rational a finite float denotes. *)
Definition float_value (x : float) : option Q :=
  match Prim2SF x with
  | S754_zero _ => Some 0%Q
  | S754_finite s m e => Some (inject_Z (cond_Zopp s (Zpos m)) * Qpower 2 e)%Q
  | _ => None
  end.

(** ** The counter *)

(** The value of the local variable [crossing] once a crossing is detected
    ([None] in the source is [None] of [option crossing]). *)
Inductive crossing : Type :=
  | ENTRY
  | EXIT.

#[global] Instance crossing_eq_dec : EqDecision crossing.
Proof. solve_decision. Defined.

(** A centre point [(cx, cy)], in pixels. *)
Definition position : Type := (Z * Z)%type.

(** The attributes of a [FootfallCounter] instance. The detection model, the
    capture handle and the video writer are external objects and carry no
    counting state; what the code reads from them is passed in as data.
    [track_history] is a [defaultdict] of lists: an absent key reads as the
    empty list. *)
Record FootfallCounter : Type := mkFootfallCounter {
  roi_position : float;
  confidence : float;
  width : Z;
  height : Z;
  fps : Z;
  total_frames : Z;
  roi_line_y : Z;
  entry_count : Z;
  exit_count : Z;
  counted_ids : gset Z;
  track_history : gmap Z (list position)
}.

Definition set_entry_count (c : FootfallCounter) (n : Z) : FootfallCounter :=
  mkFootfallCounter (roi_position c) (confidence c) (width c) (height c) (fps c)
    (total_frames c) (roi_line_y c) n (exit_count c) (counted_ids c) (track_history c).

Definition set_exit_count (c : FootfallCounter) (n : Z) : FootfallCounter :=
  mkFootfallCounter (roi_position c) (confidence c) (width c) (height c) (fps c)
    (total_frames c) (roi_line_y c) (entry_count c) n (counted_ids c) (track_history c).

Definition set_counted_ids (c : FootfallCounter) (ids : gset Z) : FootfallCounter :=
  mkFootfallCounter (roi_position c) (confidence c) (width c) (height c) (fps c)
    (total_frames c) (roi_line_y c) (entry_count c) (exit_count c) ids (track_history c).

Definition set_track_history (c : FootfallCounter) (h : gmap Z (list position))
  : FootfallCounter :=
  mkFootfallCounter (roi_position c) (confidence c) (width c) (height c) (fps c)
    (total_frames c) (roi_line_y c) (entry_count c) (exit_count c) (counted_ids c) h.

(** *** Construction, [__init__] *)

Inductive capture_property : Type :=
  | CAP_PROP_FRAME_WIDTH
  | CAP_PROP_FRAME_HEIGHT
  | CAP_PROP_FPS
  | CAP_PROP_FRAME_COUNT.

(** A capture object: whether the source opened, and the (float) value of
    each property. *)
Record VideoCapture : Type := mkVideoCapture {
  isOpened : bool;
  get : capture_property -> float
}.

(** What the library calls of [__init__] answer, each of which may raise:
    [YOLO('yolov8n.pt')] (line 33), [cv2.VideoCapture(video_path)] (line 36)
    and [cv2.VideoWriter(output_path, fourcc, fps, (width, height))]
    (line 58), the latter as a function of [fps], [width] and [height]. *)
Record Environment : Type := mkEnvironment {
  YOLO : result unit;
  open_capture : result VideoCapture;
  VideoWriter : Z -> Z -> Z -> result unit
}.

(** [__init__]: loads the model; opens the capture and raises ValueError
    when the source did not open; reads the frame geometry; places the line
    at [int(height * roi_position)]; starts with zero counts, no counted
    identifier and no history; opens the video writer. An exception of any
    of these steps ends the construction. *)
Definition init (env : Environment) (roi_position confidence : float)
  : result FootfallCounter :=
  do model <- YOLO env;
  do cap <- open_capture env;
  if negb (isOpened cap) then raise ValueError else
  do width <- py_int (get cap CAP_PROP_FRAME_WIDTH);
  do height <- py_int (get cap CAP_PROP_FRAME_HEIGHT);
  do fps <- py_int (get cap CAP_PROP_FPS);
  do total_frames <- py_int (get cap CAP_PROP_FRAME_COUNT);
  do height_f <- py_float_of_int height;
  do roi_line_y <- py_int (height_f * roi_position)%float;
  do out <- VideoWriter env fps width height;
  ret (mkFootfallCounter roi_position confidence width height fps total_frames
         roi_line_y 0 0 ∅ ∅).

(** *** One detection: the body of the loop of [process_frame] *)

(** [self.track_history[track_id]]. *)
Definition history_of (c : FootfallCounter) (track_id : Z) : list position :=
  default [] (track_history c !! track_id).

(** [track.append(p)], then [track.pop(0)] when the length exceeds 30. *)
Definition push_position (track : list position) (p : position) : list position :=
  let track := track ++ [p] in
  if (30 <? length track)%nat then drop 1 track else track.

(** [track[-k]] for [1 <= k <= len(track)]. *)
Definition neg_index {A} (track : list A) (k : nat) : option A :=
  if (k <=? length track)%nat then track !! (length track - k)%nat else None.

(** Lines 74 to 92: record the centre in the track's history, then, for a
    track with two samples that was not counted yet, compare the last two
    ordinates with the line. Returns the counter and [crossing]. *)
Definition observe (c : FootfallCounter) (track_id : Z) (p : position)
  : FootfallCounter * option crossing :=
  let track := push_position (history_of c track_id) p in
  let c := set_track_history c (<[track_id := track]> (track_history c)) in
  if bool_decide (2 ≤ length track)%nat && bool_decide (track_id ∉ counted_ids c) then
    match neg_index track 2, neg_index track 1 with
    | Some prev, Some curr =>
        let prev_cy := prev.2 in
        let curr_cy := curr.2 in
        if (prev_cy <? roi_line_y c) && (roi_line_y c <=? curr_cy) then
          let c := set_entry_count c (entry_count c + 1) in
          let c := set_counted_ids c ({[track_id]} ∪ counted_ids c) in
          (c, Some ENTRY)
        else if (roi_line_y c <? prev_cy) && (curr_cy <=? roi_line_y c) then
          let c := set_exit_count c (exit_count c + 1) in
          let c := set_counted_ids c ({[track_id]} ∪ counted_ids c) in
          (c, Some EXIT)
        else (c, None)
    | _, _ => (c, None)
    end
  else (c, None).

(** *** A frame *)

(** A row of [boxes.xyxy]: [(x1, y1, x2, y2)]. *)
Definition box : Type := (float * float * float * float)%type.

(** Lines 71 and 72: [int] of each coordinate, then the floor-divided
    midpoints. *)
Definition box_center (b : box) : result position :=
  let '(x1, y1, x2, y2) := b in
  do x1 <- py_int x1;
  do y1 <- py_int y1;
  do x2 <- py_int x2;
  do y2 <- py_int y2;
  ret ((x1 + x2) / 2, (y1 + y2) / 2).

(** A line printed on a crossing: the identifier and the direction. *)
Definition event : Type := (Z * crossing)%type.

Definition event_of (track_id : Z) (cr : option crossing) : list event :=
  match cr with
  | Some d => [(track_id, d)]
  | None => []
  end.

(** What the tracker answers for a frame: the boxes and, unless no track
    has an identifier, the identifiers. *)
Record tracker_result : Type := mkTrackerResult {
  boxes_xyxy : list box;
  boxes_id : option (list Z)
}.

(** What the library calls of [process_frame] answer for one frame, each of
    which may raise: [self.model.track(frame, ...)] (line 63); [cv2.line]
    (line 64), as a function of [width] and [roi_line_y]; the drawing calls
    of one detection (lines 94 to 104), as a function of the box, the
    identifier, the centre, [crossing] and the track's history; the overlay
    of the totals (lines 107 to 112), as a function of the two counters. *)
Record frame_calls : Type := mkFrameCalls {
  model_track : result tracker_result;
  draw_line : Z -> Z -> result unit;
  draw_box : box -> Z -> position -> option crossing -> list position -> result unit;
  draw_overlay : Z -> Z -> result unit
}.

(** The loop over [zip(boxes, track_ids)]: for each detection the centre,
    the observation, then the drawing. The counter is mutated in place, so
    what was done before an exception stays done: the result carries the
    counter, the lines printed so far and the exception, if any. *)
Fixpoint process_detections (calls : frame_calls) (c : FootfallCounter)
    (ds : list (box * Z))
  : FootfallCounter * list event * option py_exception :=
  match ds with
  | [] => (c, [], None)
  | (b, track_id) :: ds =>
      match box_center b with
      | inl e => (c, [], Some e)
      | inr p =>
          let '(c, cr) := observe c track_id p in
          match draw_box calls b track_id p cr (history_of c track_id) with
          | inl e => (c, event_of track_id cr, Some e)
          | inr _ =>
              let '(c, evs, e) := process_detections calls c ds in
              (c, event_of track_id cr ++ evs, e)
          end
      end
  end.

Definition process_frame (c : FootfallCounter) (calls : frame_calls)
  : FootfallCounter * list event * option py_exception :=
  match model_track calls with
  | inl e => (c, [], Some e)
  | inr r =>
      match draw_line calls (width c) (roi_line_y c) with
      | inl e => (c, [], Some e)
      | inr _ =>
          let '(c, evs, e) :=
            match boxes_id r with
            | Some track_ids =>
                process_detections calls c (zip (boxes_xyxy r) track_ids)
            | None => (c, [], None)
            end in
          match e with
          | Some e => (c, evs, Some e)
          | None =>
              match draw_overlay calls (entry_count c) (exit_count c) with
              | inl e => (c, evs, Some e)
              | inr _ => (c, evs, None)
              end
          end
      end
  end.

(** The figures of the results summary at the end of [run]: entries, exits
    and net flow. *)
Definition summary (c : FootfallCounter) : Z * Z * Z :=
  (entry_count c, exit_count c, entry_count c - exit_count c).

(** *** Sequences of observations *)

(** Feeding observations one after the other, collecting the events. *)
Fixpoint observe_all (c : FootfallCounter) (obs : list (Z * position))
  : FootfallCounter * list event :=
  match obs with
  | [] => (c, [])
  | (track_id, p) :: obs =>
      let '(c, cr) := observe c track_id p in
      let '(c, evs) := observe_all c obs in
      (c, event_of track_id cr ++ evs)
  end.

(** The condition of the ENTRY branch and of the EXIT branch of [observe],
    on the history as it stands after the append. *)
Definition entry_rule (line : Z) (track : list position) : Prop :=
  exists prev curr, neg_index track 2 = Some prev /\ neg_index track 1 = Some curr /\
    prev.2 < line /\ line <= curr.2.

Definition exit_rule (line : Z) (track : list position) : Prop :=
  exists prev curr, neg_index track 2 = Some prev /\ neg_index track 1 = Some curr /\
    line < prev.2 /\ curr.2 <= line.

(** No count, no counted identifier, no history: what [__init__] sets. *)
Definition fresh (c : FootfallCounter) : Prop :=
  entry_count c = 0 /\ exit_count c = 0 /\ counted_ids c = ∅ /\ track_history c = ∅.

(** The events of one track among the events emitted. *)
Definition events_for (track_id : Z) (evs : list event) : list event :=
  filter (fun e : event => e.1 = track_id) evs.

(** The positions observed for one track, in order of arrival. *)
Definition positions_of (track_id : Z) (obs : list (Z * position)) : list position :=
  (filter (fun o : Z * position => o.1 = track_id) obs).*2.

(** The last [n] elements of a list (the whole list when it is shorter). *)
Definition last_n {A} (n : nat) (l : list A) : list A := drop (length l - n) l.

(** The decision of [observe] written on the ordinates alone: [ys] are the
    ordinates of the history after the append. *)
Definition crossing_of_ordinates (line : Z) (counted : gset Z) (track_id : Z)
    (ys : list Z) : option crossing :=
  if bool_decide (2 ≤ length ys)%nat && bool_decide (track_id ∉ counted) then
    match neg_index ys 2, neg_index ys 1 with
    | Some prev_cy, Some curr_cy =>
        if (prev_cy <? line) && (line <=? curr_cy) then Some ENTRY
        else if (line <? prev_cy) && (curr_cy <=? line) then Some EXIT
        else None
    | _, _ => None
    end
  else None.

(** Two observations of the same track at the same ordinate. *)
Definition same_track_same_y (o1 o2 : Z * position) : Prop :=
  o1.1 = o2.1 /\ o1.2.2 = o2.2.2.

(** Two counters that differ at most in the abscissas they recorded. *)
Definition same_up_to_x (c1 c2 : FootfallCounter) : Prop :=
  roi_line_y c1 = roi_line_y c2 /\
  entry_count c1 = entry_count c2 /\
  exit_count c1 = exit_count c2 /\
  counted_ids c1 = counted_ids c2 /\
  forall track_id, (history_of c1 track_id).*2 = (history_of c2 track_id).*2.

(** Modelled from the spec: [reset()]. The source has no such method, the
    spec adds it: it clears the history, the counted set and both counters,
    which is what lines 50 to 53 of [__init__] set. *)
Definition reset (c : FootfallCounter) : FootfallCounter :=
  set_track_history (set_counted_ids (set_exit_count (set_entry_count c 0) 0) ∅) ∅.




(** A rational truncated toward zero. *)
Definition Qtrunc (q : Q) : Z :=
  if Qle_bool 0 q then Qfloor q else Qceiling q.

(** [p] is the geometric centre of the box [b]:
    [((x1 + x2) / 2, (y1 + y2) / 2)] on the values of the coordinates. *)
Definition is_geometric_center (b : box) (p : position) : Prop :=
  let '(x1, y1, x2, y2) := b in
  exists qx1 qy1 qx2 qy2,
    float_value x1 = Some qx1 /\ float_value y1 = Some qy1 /\
    float_value x2 = Some qx2 /\ float_value y2 = Some qy2 /\
    (inject_Z p.1 == (qx1 + qx2) / 2)%Q /\ (inject_Z p.2 == (qy1 + qy2) / 2)%Q.

(** The states a counter goes through: the one [__init__] builds, and
    every state an observation leads to. *)
Inductive reachable : FootfallCounter -> Prop :=
  | reachable_init env roi conf c :
      init env roi conf = inr c -> reachable c
  | reachable_observe c track_id p :
      reachable c -> reachable (observe c track_id p).1.

(** A capture of frames 100 pixels high: with [roi_position = 0.5] the
    line is at ordinate 50. *)
Definition cap100 : VideoCapture :=
  mkVideoCapture true
    (fun p => match p with
              | CAP_PROP_FRAME_WIDTH => 200%float
              | CAP_PROP_FRAME_HEIGHT => 100%float
              | CAP_PROP_FPS => 30%float
              | CAP_PROP_FRAME_COUNT => 900%float
              end).


(** Environments with these captures in which the model loads and the
    video writer opens. *)
Definition env100 : Environment :=
  mkEnvironment (inr tt) (inr cap100) (fun _ _ _ => inr tt).


(** A frame for which the tracker answers [r] and every drawing call
    succeeds. *)
Definition frame_of (r : tracker_result) : frame_calls :=
  mkFrameCalls (inr r) (fun _ _ => inr tt) (fun _ _ _ _ _ => inr tt)
    (fun _ _ => inr tt).

Definition counter50 : FootfallCounter :=
  mkFootfallCounter 0.5%float 0.5%float 200 100 30 900 50 0 0 ∅ ∅.

(** *** The main loop, [run] *)

(** What one turn of the loop of [run] gets from outside: what the library
    calls of [process_frame] answer for the frame read, what
    [self.out.write(processed)] and [cv2.imshow(...)] answer, and the value
    of [cv2.waitKey(1)]. *)
Record frame_input : Type := mkFrameInput {
  calls : frame_calls;
  written : result unit;
  shown : result unit;
  key : Z
}.

(** The loop of [run], from [frame_count] on, over the frames the capture
    still has: [cap.read()] fails when they are exhausted. Returns the
    counter, [frame_count], the crossing lines printed, the frame counts at
    which a progress line was printed, and the exception that ended the loop,
    if any. The images written and shown are not recorded. *)
Fixpoint run_loop (c : FootfallCounter) (frame_count : Z) (frames : list frame_input)
  : FootfallCounter * Z * list event * list Z * option py_exception :=
  match frames with
  | [] => (c, frame_count, [], [], None)
  | f :: frames =>
      let frame_count := frame_count + 1 in
      let '(c, evs, e) := process_frame c (calls f) in
      match e with
      | Some e => (c, frame_count, evs, [], Some e)
      | None =>
          match written f with
          | inl e => (c, frame_count, evs, [], Some e)
          | inr _ =>
              let progress :=
                if frame_count mod 30 =? 0 then [frame_count] else [] in
              match shown f with
              | inl e => (c, frame_count, evs, progress, Some e)
              | inr _ =>
                  if Z.land (key f) 255 =? 113
                  then (c, frame_count, evs, progress, None)
                  else
                    let '(c', n, evs', progress', e') :=
                      run_loop c frame_count frames in
                    (c', n, evs ++ evs', progress ++ progress', e')
              end
          end
      end
  end.

(** What a call of [run] leaves: the counter, the number of frames read,
    what was printed, and the results summary, which is printed only when
    the loop ends without an exception. The calls between the loop and the
    summary, [release()] of the capture and of the writer and
    [cv2.destroyAllWindows()], take no data of the counter and are taken to
    return. *)
Record run_result : Type := mkRunResult {
  counter : FootfallCounter;
  frames_read : Z;
  crossings_printed : list event;
  progress_printed : list Z;
  results_printed : option (Z * Z * Z);
  raised : option py_exception
}.

Definition run (c : FootfallCounter) (frames : list frame_input) : run_result :=
  let '(c, n, evs, progress, e) := run_loop c 0 frames in
  mkRunResult c n evs progress
    (match e with None => Some (summary c) | Some _ => None end) e.

(** A turn of the loop at which the tracker answers [r], every other
    library call succeeds and the key read is [k]. *)
Definition frame_input_of (r : tracker_result) (k : Z) : frame_input :=
  mkFrameInput (frame_of r) (inr tt) (inr tt) k.

(** *** The detection scripts, [src/footfall_counter.py] and [src/tracking.py] *)

(** A row of [boxes.data.tolist()]: [x1, y1, x2, y2, conf, cls], all
    floats. *)
Definition detection : Type := (float * float * float * float * float * float)%type.

(** The literal [0.4]: the binary64 number nearest to four tenths. *)
Definition conf_threshold : float := 0x1.999999999999ap-2%float.

(** [src/footfall_counter.py], lines 23 to 27: the rows of class 0 with a
    confidence above 0.4, their corners converted by [int]. *)
Fixpoint person_boxes (rows : list detection)
  : result (list (Z * Z * Z * Z * float)) :=
  match rows with
  | [] => ret []
  | (x1, y1, x2, y2, conf, cls) :: rows =>
      do k <- py_int cls;
      if (k =? 0) && (conf_threshold <? conf)%float then
        do x1 <- py_int x1;
        do y1 <- py_int y1;
        do x2 <- py_int x2;
        do y2 <- py_int y2;
        do rest <- person_boxes rows;
        ret ((x1, y1, x2, y2, conf) :: rest)
      else person_boxes rows
  end.

(** [src/tracking.py], lines 23 to 28: the same test, the corners kept as
    floats. *)
Fixpoint person_detections (rows : list detection) : result (list (box * float)) :=
  match rows with
  | [] => ret []
  | (x1, y1, x2, y2, confidence, cls) :: rows =>
      do k <- py_int cls;
      if (k =? 0) && (conf_threshold <? confidence)%float then
        do rest <- person_detections rows;
        ret (((x1, y1, x2, y2), confidence) :: rest)
      else person_detections rows
  end.

(** The test both scripts apply to a row. *)
Definition is_person (d : detection) : bool :=
  let '(_, _, _, _, conf, cls) := d in
  match py_int cls with
  | inr k => (k =? 0) && (conf_threshold <? conf)%float
  | inl _ => false
  end.

(** A box of integers is the box of floats converted by [int], with the
    same confidence. *)
Definition truncation_of (o : Z * Z * Z * Z * float) (o' : box * float) : Prop :=
  let '(i1, j1, i2, j2, conf) := o in
  let '((x1, y1, x2, y2), conf') := o' in
  py_int x1 = inr i1 /\ py_int y1 = inr j1 /\
  py_int x2 = inr i2 /\ py_int y2 = inr j2 /\ conf = conf'.

(** *** Notions used in the statements *)

(** The number of events of one direction. *)
Definition count_direction (d : crossing) (evs : list event) : Z :=
  Z.of_nat (length (filter (fun e : event => e.2 = d) evs)).

(** The events [evs] account for the step from [c] to [c']: each counter
    grew by the number of events of its direction, the counted set by the
    identifiers of the events, which are pairwise distinct and were not
    counted in [c]. *)
Definition accounted (c c' : FootfallCounter) (evs : list event) : Prop :=
  entry_count c' = entry_count c + count_direction ENTRY evs /\
  exit_count c' = exit_count c + count_direction EXIT evs /\
  counted_ids c' = counted_ids c ∪ list_to_set evs.*1 /\
  NoDup evs.*1 /\
  forall track_id, track_id ∈ evs.*1 -> track_id ∉ counted_ids c.

(** A position reflected about the line, and the opposite direction. *)
Definition mirror (line : Z) (p : position) : position := (p.1, 2 * line - p.2).

Definition opposite (d : crossing) : crossing :=
  match d with
  | ENTRY => EXIT
  | EXIT => ENTRY
  end.

(** Counters that are each other's reflection about their common line:
    the counts exchanged, the same identifiers counted, the histories
    reflected. *)
Definition mirrored (c1 c2 : FootfallCounter) : Prop :=
  roi_line_y c1 = roi_line_y c2 /\
  entry_count c1 = exit_count c2 /\
  exit_count c1 = entry_count c2 /\
  counted_ids c1 = counted_ids c2 /\
  forall track_id,
    history_of c2 track_id = mirror (roi_line_y c1) <$> history_of c1 track_id.

(** Every ordinate recorded in the counter satisfies [P]. *)
Definition recorded_ordinates (P : Z -> Prop) (c : FootfallCounter) : Prop :=
  forall track_id, Forall (fun p : position => P p.2) (history_of c track_id).

(** The frames [run] gets through: up to and including the first one at
    which the key read has low byte 113, the code of [q]. *)
Fixpoint frames_played (frames : list frame_input) : list frame_input :=
  match frames with
  | [] => []
  | f :: frames =>
      if Z.land (key f) 255 =? 113 then [f] else f :: frames_played frames
  end.

(** ** Python values: checks *)

Example py_int_pos : py_int 3.75%float = inr 3.
Proof. vm_compute. reflexivity. Qed.

Example py_int_neg : py_int (-3.75)%float = inr (-3).
Proof. vm_compute. reflexivity. Qed.

Example py_int_nan : py_int nan = inl ValueError.
Proof. vm_compute. reflexivity. Qed.

Example py_int_inf : py_int infinity = inl OverflowError.
Proof. vm_compute. reflexivity. Qed.

Example py_float_of_int_480 : py_float_of_int 480 = inr 480%float.
Proof. vm_compute. reflexivity. Qed.

Example init_cap100 : init env100 0.5%float 0.5%float = inr counter50.
Proof. vm_compute. reflexivity. Qed.

(** ** The history buffer *)

Lemma push_position_length track p :
  length (push_position track p) =
    if (30 <? S (length track))%nat then length track else S (length track).
Proof.
  unfold push_position. rewrite length_app. cbn [length].
  replace (length track + 1)%nat with (S (length track)) by lia.
  destruct (30 <? S (length track))%nat; [|rewrite length_app; cbn; lia].
  rewrite length_drop, length_app. cbn. lia.
Qed.

Lemma push_position_last track p :
  neg_index (push_position track p) 1 = Some p.
Proof.
  unfold neg_index. rewrite push_position_length. unfold push_position.
  rewrite length_app. cbn [length].
  replace (length track + 1)%nat with (S (length track)) by lia.
  destruct (30 <? S (length track))%nat eqn:E.
  - apply Nat.ltb_lt in E.
    destruct (1 <=? length track)%nat eqn:E1; [|apply Nat.leb_gt in E1; lia].
    rewrite lookup_drop, lookup_app_r by lia.
    replace (1 + (length track - 1) - length track)%nat with 0%nat by lia.
    reflexivity.
  - cbn [Nat.leb]. rewrite lookup_app_r by lia.
    replace (S (length track) - 1 - length track)%nat with 0%nat by lia.
    reflexivity.
Qed.

Lemma push_position_prev track p :
  track <> [] -> neg_index (push_position track p) 2 = last track.
Proof.
  intros Hne. assert (0 < length track)%nat by (destruct track; cbn; [done|lia]).
  unfold neg_index. rewrite push_position_length. unfold push_position.
  rewrite length_app. cbn [length].
  replace (length track + 1)%nat with (S (length track)) by lia.
  rewrite last_lookup.
  destruct (30 <? S (length track))%nat eqn:E.
  - apply Nat.ltb_lt in E.
    destruct (2 <=? length track)%nat eqn:E1; [|apply Nat.leb_gt in E1; lia].
    rewrite lookup_drop, lookup_app_l by lia. f_equal. lia.
  - destruct (2 <=? S (length track))%nat eqn:E1; [|apply Nat.leb_gt in E1; lia].
    rewrite lookup_app_l by lia. f_equal. lia.
Qed.

(** ** One observation, case by case *)

Section ObserveCases.
Variables (c : FootfallCounter) (track_id : Z) (p : position).

Abbreviation track := (push_position (history_of c track_id) p).
Abbreviation line := (roi_line_y c).
Abbreviation c' := (observe c track_id p).1.
Abbreviation cr := (observe c track_id p).2.

Lemma observe_frame :
  track_history (observe c track_id p).1 = <[track_id := track]> (track_history c) /\
  roi_line_y (observe c track_id p).1 = line.
Proof.
  unfold observe.
  destruct (bool_decide _ && bool_decide _); [|done].
  destruct (neg_index track 2), (neg_index track 1); try done.
  cbn. destruct (_ && _); [done|]. destruct (_ && _); done.
Qed.

Lemma observe_cases :
  (cr = Some ENTRY /\ (track_id ∉ counted_ids c) /\ (2 <= length track)%nat /\
     entry_rule line track /\
     entry_count c' = entry_count c + 1 /\ exit_count c' = exit_count c /\
     counted_ids c' = {[track_id]} ∪ counted_ids c) \/
  (cr = Some EXIT /\ (track_id ∉ counted_ids c) /\ (2 <= length track)%nat /\
     exit_rule line track /\ ~ entry_rule line track /\
     entry_count c' = entry_count c /\ exit_count c' = exit_count c + 1 /\
     counted_ids c' = {[track_id]} ∪ counted_ids c) \/
  (cr = None /\
     (track_id ∈ counted_ids c \/ (length track < 2)%nat \/
      (~ entry_rule line track /\ ~ exit_rule line track)) /\
     entry_count c' = entry_count c /\ exit_count c' = exit_count c /\
     counted_ids c' = counted_ids c).
Proof.
  unfold observe. cbn [counted_ids set_track_history roi_line_y].
  destruct (bool_decide (2 ≤ length track)%nat) eqn:Hlen; cbn [andb];
    [apply bool_decide_eq_true in Hlen
    |apply bool_decide_eq_false in Hlen; right; right; cbn; intuition lia].
  destruct (bool_decide (track_id ∉ counted_ids c)) eqn:Hin;
    [apply bool_decide_eq_true in Hin
    |apply bool_decide_eq_false in Hin; right; right; cbn;
     split; [done|]; split; [|done]; left;
     destruct (decide (track_id ∈ counted_ids c)); tauto].
  destruct (neg_index track 2) as [prev|] eqn:H2.
  2:{ unfold neg_index in H2. destruct (2 <=? length track)%nat eqn:E.
      - apply lookup_ge_None in H2. lia.
      - apply Nat.leb_gt in E. lia. }
  destruct (neg_index track 1) as [curr|] eqn:H1.
  2:{ unfold neg_index in H1. destruct (1 <=? length track)%nat eqn:E.
      - apply lookup_ge_None in H1. lia.
      - apply Nat.leb_gt in E. lia. }
  cbn [entry_count exit_count set_track_history].
  destruct (prev.2 <? line) eqn:Ea; destruct (line <=? curr.2) eqn:Eb; cbn [andb];
    try (apply Z.ltb_lt in Ea); try (apply Z.ltb_ge in Ea);
    try (apply Z.leb_le in Eb); try (apply Z.leb_gt in Eb).
  1:{ left. cbn. repeat split; try done. exists prev, curr. done. }
  all: assert (Hne : ~ entry_rule line track)
         by (intros (pv & cu & Hp & Hc & ? & ?); rewrite H2 in Hp; rewrite H1 in Hc;
             simplify_eq; lia).
  all: destruct (line <? prev.2) eqn:Ec; destruct (curr.2 <=? line) eqn:Ed; cbn [andb];
    try (apply Z.ltb_lt in Ec); try (apply Z.ltb_ge in Ec);
    try (apply Z.leb_le in Ed); try (apply Z.leb_gt in Ed).
  all: try (right; left; cbn; repeat split; try done; exists prev, curr; done).
  all: right; right; cbn; repeat split; try done; right; right; split; [done|];
    intros (pv & cu & Hp & Hc & ? & ?); rewrite H2 in Hp; rewrite H1 in Hc;
    simplify_eq; lia.
Qed.
End ObserveCases.

Lemma observe_history c track_id p :
  history_of (observe c track_id p).1 track_id = push_position (history_of c track_id) p.
Proof.
  unfold history_of at 1. rewrite (proj1 (observe_frame c track_id p)).
  by rewrite lookup_insert_eq.
Qed.

Lemma observe_history_ne c track_id p other :
  track_id <> other ->
  history_of (observe c track_id p).1 other = history_of c other.
Proof.
  intros Hne. unfold history_of. rewrite (proj1 (observe_frame c track_id p)).
  by rewrite lookup_insert_ne.
Qed.

Lemma entry_exit_exclusive line track :
  entry_rule line track -> exit_rule line track -> False.
Proof.
  intros (p1 & c1 & Hp1 & Hc1 & ? & ?) (p2 & c2 & Hp2 & Hc2 & ? & ?).
  rewrite Hp1 in Hp2. simplify_eq. lia.
Qed.

Lemma init_fresh env roi conf c : init env roi conf = inr c -> fresh c.
Proof.
  unfold init.
  destruct (YOLO env); cbn [bind]; [done|].
  destruct (open_capture env) as [e|cap]; cbn [bind]; [done|].
  destruct (negb (isOpened cap)); [done|].
  repeat (match goal with |- context [bind ?m _] => destruct m; cbn [bind]; [done|] end).
  unfold ret. intros [= <-]. by repeat split.
Qed.

Lemma reachable_observe_all c obs : reachable c -> reachable (observe_all c obs).1.
Proof.
  revert c. induction obs as [|[tid p] obs IH]; intros c Hc; cbn [observe_all]; [done|].
  pose proof (reachable_observe c tid p Hc) as H1.
  destruct (observe c tid p) as [c1 cr]. specialize (IH c1 H1).
  by destruct (observe_all c1 obs).
Qed.

(** ** The crossing rule *)

(** Two observations of a track on a fresh counter: the second one decides. *)
Lemma observe_pair c track_id p1 p2 :
  fresh c ->
  observe_all c [(track_id, p1); (track_id, p2)] =
    let c1 := set_track_history c (<[track_id := [p1; p2]]> (<[track_id := [p1]]> (track_history c))) in
    if (p1.2 <? roi_line_y c) && (roi_line_y c <=? p2.2) then
      (set_counted_ids (set_entry_count c1 (entry_count c + 1)) ({[track_id]} ∪ counted_ids c),
       [(track_id, ENTRY)])
    else if (roi_line_y c <? p1.2) && (p2.2 <=? roi_line_y c) then
      (set_counted_ids (set_exit_count c1 (exit_count c + 1)) ({[track_id]} ∪ counted_ids c),
       [(track_id, EXIT)])
    else (c1, []).
Proof.
  intros (He & Hx & Hc & Hh). cbn [observe_all].
  unfold observe at 1. unfold history_of. rewrite Hh, lookup_empty. cbn.
  rewrite (bool_decide_eq_false_2 (2 <= 1)%nat) by lia. cbn [andb].
  unfold observe, history_of. cbn [track_history set_track_history counted_ids].
  rewrite lookup_insert_eq. cbn [default]. rewrite Hc.
  rewrite (bool_decide_eq_true_2 (track_id ∉ ∅)) by set_solver.
  cbn. rewrite (bool_decide_eq_true_2 (2 <= 2)%nat) by lia. cbn [andb]. rewrite ?Hc.
  destruct (_ && _); [done|]. destruct (_ && _); done.
Qed.

(** The two ordinates compared are the one recorded last for the track and
    the one just observed. *)
Lemma observe_compares_last_with_new c track_id p prev :
  last (history_of c track_id) = Some prev ->
  track_id ∉ counted_ids c ->
  (observe c track_id p).2 =
    if (prev.2 <? roi_line_y c) && (roi_line_y c <=? p.2) then Some ENTRY
    else if (roi_line_y c <? prev.2) && (p.2 <=? roi_line_y c) then Some EXIT
    else None.
Proof.
  intros Hlast Hnot.
  assert (Hne : history_of c track_id <> []) by (by intros E; rewrite E in Hlast).
  assert (Hlen : (2 <= length (push_position (history_of c track_id) p))%nat).
  { rewrite push_position_length. destruct (history_of c track_id); [done|].
    cbn [length]. destruct (30 <? _)%nat eqn:E; [apply Nat.ltb_lt in E|]; lia. }
  unfold observe. cbn [counted_ids set_track_history roi_line_y].
  rewrite (bool_decide_eq_true_2 _ Hlen), (bool_decide_eq_true_2 _ Hnot).
  rewrite push_position_prev, push_position_last, Hlast by done. cbn.
  destruct (_ && _); [done|]. destruct (_ && _); done.
Qed.

(** C1. A track not yet counted, with two history entries after the append:
    when the earlier ordinate is strictly below the line and the later one at
    or beyond it, the observation yields ENTRY and adds one to [entry_count];
    when the earlier is strictly beyond and the later at or below, it yields
    EXIT and adds one to [exit_count]. With the line at 50, the ordinates
    10 then 60 give one ENTRY and counts (1, 0); 60 then 10 give one EXIT and
    [exit_count = 1]. *)
Theorem crossing_rule_fires :
  (forall c track_id p,
     let c' := (observe c track_id p).1 in
     let track := history_of c' track_id in
     (2 <= length track)%nat -> track_id ∉ counted_ids c ->
     (entry_rule (roi_line_y c) track ->
        (observe c track_id p).2 = Some ENTRY /\
        entry_count c' = entry_count c + 1 /\ exit_count c' = exit_count c) /\
     (exit_rule (roi_line_y c) track ->
        (observe c track_id p).2 = Some EXIT /\
        exit_count c' = exit_count c + 1 /\ entry_count c' = entry_count c)) /\
  (forall c track_id x1 x2,
     fresh c -> roi_line_y c = 50 ->
     let r := observe_all c [(track_id, (x1, 10)); (track_id, (x2, 60))] in
     r.2 = [(track_id, ENTRY)] /\ entry_count r.1 = 1 /\ exit_count r.1 = 0) /\
  (forall c track_id x1 x2,
     fresh c -> roi_line_y c = 50 ->
     let r := observe_all c [(track_id, (x1, 60)); (track_id, (x2, 10))] in
     r.2 = [(track_id, EXIT)] /\ exit_count r.1 = 1 /\ entry_count r.1 = 0).
Proof.
  split; [|split].
  - intros c tid p c' track Hlen Hnot. subst c' track.
    rewrite observe_history in *.
    destruct (observe_cases c tid p)
      as [(Hcr & _ & _ & Hr & He & Hx & _)
         |[(Hcr & _ & _ & Hr & Hnr & He & Hx & _)
          |(Hcr & [Hin|[Hshort|[Hne Hnx]]] & He & Hx & _)]];
      split; intros Hrule; try done; try lia;
      exfalso; eauto using entry_exit_exclusive.
  - intros c tid x1 x2 Hf Hl r. subst r. rewrite observe_pair by done.
    rewrite Hl. destruct Hf as (He & Hx & _). cbn. rewrite He, Hx. done.
  - intros c tid x1 x2 Hf Hl r. subst r. rewrite observe_pair by done.
    rewrite Hl. destruct Hf as (He & Hx & _). cbn. rewrite He, Hx. done.
Qed.

Lemma crossing_rule_fires_witness :
  let c := (observe counter50 7 (5, 10)).1 in
  let d := (observe counter50 7 (5, 60)).1 in
  ((observe c 7 (5, 60)).2 = Some ENTRY /\
   entry_count (observe c 7 (5, 60)).1 = entry_count c + 1 /\
   exit_count (observe c 7 (5, 60)).1 = exit_count c) /\
  ((observe d 7 (5, 10)).2 = Some EXIT /\
   exit_count (observe d 7 (5, 10)).1 = exit_count d + 1 /\
   entry_count (observe d 7 (5, 10)).1 = entry_count d) /\
  (observe_all counter50 [(7, (5, 10)); (7, (6, 60))]).2 = [(7, ENTRY)] /\
  (observe_all counter50 [(7, (5, 60)); (7, (6, 10))]).2 = [(7, EXIT)].
Proof.
  intros c d.
  assert (Hf : fresh counter50) by (by repeat split).
  split; [|split; [|split]].
  - apply (proj1 crossing_rule_fires c 7 (5, 60)).
    + vm_compute. lia.
    + vm_compute. set_solver.
    + exists (5, 10), (5, 60). vm_compute. repeat split; congruence.
  - apply (proj1 crossing_rule_fires d 7 (5, 10)).
    + vm_compute. lia.
    + vm_compute. set_solver.
    + exists (5, 60), (5, 10). vm_compute. repeat split; congruence.
  - apply (proj1 (proj2 crossing_rule_fires) counter50 7 5 6 Hf eq_refl).
  - apply (proj2 (proj2 crossing_rule_fires) counter50 7 5 6 Hf eq_refl).
Defined.

(** C6. An uncounted track whose last two ordinates both equal the line:
    no branch fires, no event, both counters unchanged; so for the
    ordinates 50 then 50 with the line at 50. *)
Theorem boundary_no_event :
  (forall c track_id p prev curr,
     let c' := (observe c track_id p).1 in
     let track := history_of c' track_id in
     track_id ∉ counted_ids c ->
     neg_index track 2 = Some prev -> neg_index track 1 = Some curr ->
     prev.2 = roi_line_y c -> curr.2 = roi_line_y c ->
     ~ entry_rule (roi_line_y c) track /\ ~ exit_rule (roi_line_y c) track /\
     (observe c track_id p).2 = None /\
     entry_count c' = entry_count c /\ exit_count c' = exit_count c) /\
  (forall c track_id x1 x2,
     fresh c -> roi_line_y c = 50 ->
     let r := observe_all c [(track_id, (x1, 50)); (track_id, (x2, 50))] in
     r.2 = [] /\ entry_count r.1 = 0 /\ exit_count r.1 = 0).
Proof.
  split.
  - intros c tid p prev curr c' track Hnot Hp Hc Hpy Hcy. subst c' track.
    rewrite observe_history in *.
    assert (Hne : ~ entry_rule (roi_line_y c) (push_position (history_of c tid) p)).
    { intros (pv & cu & Hp' & Hc' & ? & ?). rewrite Hp in Hp'. simplify_eq. lia. }
    assert (Hnx : ~ exit_rule (roi_line_y c) (push_position (history_of c tid) p)).
    { intros (pv & cu & Hp' & Hc' & ? & ?). rewrite Hp in Hp'. simplify_eq. lia. }
    split; [done|]. split; [done|].
    destruct (observe_cases c tid p)
      as [(_ & _ & _ & Hr & _)|[(_ & _ & _ & Hr & _)|(Hcr & _ & He & Hx & _)]];
      done.
  - intros c tid x1 x2 Hf Hl r. subst r. rewrite observe_pair by done.
    rewrite Hl. destruct Hf as (He & Hx & _). cbn. rewrite He, Hx. done.
Qed.

Lemma boundary_no_event_witness :
  let c := (observe counter50 7 (5, 50)).1 in
  ((observe c 7 (9, 50)).2 = None /\
   entry_count (observe c 7 (9, 50)).1 = entry_count c /\
   exit_count (observe c 7 (9, 50)).1 = exit_count c) /\
  (observe_all counter50 [(7, (5, 50)); (7, (9, 50))]).2 = [].
Proof.
  intros c. split.
  - apply (proj1 boundary_no_event c 7 (9, 50) (5, 50) (9, 50)).
    + vm_compute. set_solver.
    + vm_compute. reflexivity.
    + vm_compute. reflexivity.
    + reflexivity.
    + reflexivity.
  - apply (proj2 boundary_no_event counter50 7 5 9).
    + by repeat split.
    + reflexivity.
Defined.

(** ** The counters *)

Lemma observe_all_cons c track_id p obs :
  observe_all c ((track_id, p) :: obs) =
    ((observe_all (observe c track_id p).1 obs).1,
     event_of track_id (observe c track_id p).2 ++
       (observe_all (observe c track_id p).1 obs).2).
Proof.
  cbn [observe_all]. destruct (observe c track_id p) as [c1 cr]. cbn [fst snd].
  by destruct (observe_all c1 obs).
Qed.

Lemma observe_counts_le c track_id p :
  entry_count c <= entry_count (observe c track_id p).1 /\
  exit_count c <= exit_count (observe c track_id p).1.
Proof.
  destruct (observe_cases c track_id p)
    as [(_ & _ & _ & _ & He & Hx & _)
       |[(_ & _ & _ & _ & _ & He & Hx & _)|(_ & _ & He & Hx & _)]]; lia.
Qed.

Lemma observe_all_counts_le c obs :
  entry_count c <= entry_count (observe_all c obs).1 /\
  exit_count c <= exit_count (observe_all c obs).1.
Proof.
  revert c. induction obs as [|[tid p] obs IH]; intros c.
  - cbn. lia.
  - rewrite observe_all_cons. cbn [fst].
    pose proof (observe_counts_le c tid p). specialize (IH (observe c tid p).1). lia.
Qed.

(** The loop of a frame does the observations of the boxes it gets through,
    in order: all of them, or those up to the first detection at which
    [int] or a drawing call raises. *)
Lemma process_detections_observe_all calls c ds :
  exists obs,
    ((process_detections calls c ds).1.1, (process_detections calls c ds).1.2) =
      observe_all c obs /\
    Forall2 (fun o d => o.1 = d.2 /\ box_center d.1 = inr o.2) obs (take (length obs) ds) /\
    ((process_detections calls c ds).2 = None -> length obs = length ds).
Proof.
  revert c. induction ds as [|[b tid] ds IH]; intros c.
  - exists []. cbn. by repeat split.
  - cbn [process_detections]. destruct (box_center b) as [e|p] eqn:Hb.
    + exists []. cbn. by repeat split.
    + destruct (IH (observe c tid p).1) as (obs & Heq & Hall & Hlen).
      destruct (observe c tid p) as [c1 cr] eqn:Hobs. cbn [fst snd] in *.
      destruct (draw_box calls b tid p cr (history_of c1 tid)) as [e|[]].
      * exists [(tid, p)]. cbn [observe_all]. rewrite Hobs. cbn.
        rewrite app_nil_r. split; [done|]. split; [|done].
        constructor; [by split|constructor].
      * exists ((tid, p) :: obs). rewrite observe_all_cons, Hobs. cbn [fst snd].
        rewrite <- Heq.
        destruct (process_detections calls c1 ds) as [[c2 evs] e]. cbn [fst snd] in *.
        split; [done|]. split; [|intros He; cbn; f_equal; auto].
        cbn [length take]. constructor; [by split|done].
Qed.

(** So does a frame as a whole. *)
Lemma process_frame_observe_all c calls :
  exists obs,
    ((process_frame c calls).1.1, (process_frame c calls).1.2) = observe_all c obs.
Proof.
  unfold process_frame.
  destruct (model_track calls) as [e|r]; [by exists []|].
  destruct (draw_line calls (width c) (roi_line_y c)) as [e|[]]; [by exists []|].
  destruct (boxes_id r) as [ids|].
  - destruct (process_detections_observe_all calls c (zip (boxes_xyxy r) ids))
      as (obs & Heq & _).
    exists obs. rewrite <- Heq.
    destruct (process_detections calls c (zip (boxes_xyxy r) ids)) as [[c1 evs] [e|]];
      [done|].
    by destruct (draw_overlay calls (entry_count c1) (exit_count c1)) as [e|[]].
  - exists []. by destruct (draw_overlay calls (entry_count c) (exit_count c)) as [e|[]].
Qed.

(** C7. The counters never decrease. An observation leaves each counter as
    it is or adds exactly one to it, and adds one only when the rule of that
    counter's direction fires (for an uncounted track with two samples);
    sequences of observations and whole frames therefore never lower them. *)
Theorem counters_monotone :
  (forall c track_id p,
     let c' := (observe c track_id p).1 in
     let cr := (observe c track_id p).2 in
     let track := history_of c' track_id in
     ((entry_count c' = entry_count c /\ cr <> Some ENTRY) \/
      (entry_count c' = entry_count c + 1 /\ cr = Some ENTRY /\
       (track_id ∉ counted_ids c) /\ entry_rule (roi_line_y c) track)) /\
     ((exit_count c' = exit_count c /\ cr <> Some EXIT) \/
      (exit_count c' = exit_count c + 1 /\ cr = Some EXIT /\
       (track_id ∉ counted_ids c) /\ exit_rule (roi_line_y c) track))) /\
  (forall c obs,
     entry_count c <= entry_count (observe_all c obs).1 /\
     exit_count c <= exit_count (observe_all c obs).1) /\
  (forall c r,
     entry_count c <= entry_count (process_frame c r).1.1 /\
     exit_count c <= exit_count (process_frame c r).1.1).
Proof.
  split; [|split].
  - intros c tid p c' cr track. subst c' cr track. rewrite observe_history.
    destruct (observe_cases c tid p)
      as [(Hcr & Hn & _ & Hr & He & Hx & _)
         |[(Hcr & Hn & _ & Hr & _ & He & Hx & _)|(Hcr & _ & He & Hx & _)]];
      rewrite Hcr, He, Hx; split; first [by left | by right].
  - apply observe_all_counts_le.
  - intros c r. destruct (process_frame_observe_all c r) as (obs & Heq).
    apply (f_equal fst) in Heq. cbn [fst] in Heq. rewrite Heq.
    apply observe_all_counts_le.
Qed.

(** ** The counted set *)

Lemma observe_counted_step c track_id p :
  counted_ids c ⊆ counted_ids (observe c track_id p).1 /\
  Z.of_nat (size (counted_ids (observe c track_id p).1)) - Z.of_nat (size (counted_ids c)) =
    (entry_count (observe c track_id p).1 + exit_count (observe c track_id p).1) -
    (entry_count c + exit_count c).
Proof.
  destruct (observe_cases c track_id p)
    as [(_ & Hn & _ & _ & He & Hx & Hids)
       |[(_ & Hn & _ & _ & _ & He & Hx & Hids)|(_ & _ & He & Hx & Hids)]];
    rewrite Hids, He, Hx; (split; [set_solver +|]);
    rewrite ?size_union, ?size_singleton by set_solver + Hn; lia.
Qed.

(** C9. In every state reached from construction by observations, the two
    counters add up to the number of counted identifiers; an observation
    never removes an identifier, and the set grows by exactly as much as the
    counters do. *)
Theorem counted_size_is_total :
  (forall c, reachable c ->
     entry_count c + exit_count c = Z.of_nat (size (counted_ids c))) /\
  (forall c track_id p,
     let c' := (observe c track_id p).1 in
     counted_ids c ⊆ counted_ids c' /\
     Z.of_nat (size (counted_ids c')) - Z.of_nat (size (counted_ids c)) =
       (entry_count c' + exit_count c') - (entry_count c + exit_count c) /\
     (entry_count c' - entry_count c = 0 \/ exit_count c' - exit_count c = 0)).
Proof.
  split.
  - induction 1 as [env roi conf c Hinit|c tid p Hc IH].
    + apply init_fresh in Hinit as (He & Hx & Hs & _). rewrite He, Hx, Hs.
      by rewrite size_empty.
    + pose proof (observe_counted_step c tid p) as [_ Hstep]. lia.
  - intros c tid p c'. subst c'.
    destruct (observe_counted_step c tid p) as [Hsub Hstep].
    split; [done|]. split; [done|].
    destruct (observe_cases c tid p)
      as [(_ & _ & _ & _ & He & Hx & _)
         |[(_ & _ & _ & _ & _ & He & Hx & _)|(_ & _ & He & Hx & _)]]; lia.
Qed.

Lemma counted_size_is_total_witness :
  let c := (observe_all counter50 [(7, (5, 10)); (8, (0, 70)); (7, (6, 60)); (8, (0, 20))]).1 in
  entry_count c + exit_count c = Z.of_nat (size (counted_ids c)).
Proof.
  intros c. apply (proj1 counted_size_is_total c).
  apply reachable_observe_all.
  apply (reachable_init env100 0.5%float 0.5%float). vm_compute. reflexivity.
Defined.

(** ** At most one event per track *)

Lemma observe_counted_silent c track_id p :
  track_id ∈ counted_ids c ->
  (observe c track_id p).2 = None /\
  entry_count (observe c track_id p).1 = entry_count c /\
  exit_count (observe c track_id p).1 = exit_count c.
Proof.
  intros Hin.
  destruct (observe_cases c track_id p)
    as [(_ & Hn & _)|[(_ & Hn & _)|(Hcr & _ & He & Hx & _)]]; done.
Qed.

Lemma observe_event_counted c track_id p d :
  (observe c track_id p).2 = Some d -> track_id ∈ counted_ids (observe c track_id p).1.
Proof.
  intros Hd.
  destruct (observe_cases c track_id p)
    as [(_ & _ & _ & _ & _ & _ & Hids)
       |[(_ & _ & _ & _ & _ & _ & _ & Hids)|(Hcr & _)]];
    [rewrite Hids; set_solver +|rewrite Hids; set_solver +|congruence].
Qed.

Lemma observe_all_counted_keeps c obs track_id :
  track_id ∈ counted_ids c -> track_id ∈ counted_ids (observe_all c obs).1.
Proof.
  revert c. induction obs as [|[t p] obs IH]; intros c Hin; [done|].
  rewrite observe_all_cons. cbn [fst]. apply IH.
  by apply (proj1 (observe_counted_step c t p)).
Qed.

Lemma events_for_event_of_ne track_id t cr :
  t <> track_id -> events_for track_id (event_of t cr) = [].
Proof.
  intros Hne. destruct cr as [d|]; [|done]. unfold events_for, event_of.
  rewrite filter_cons_False; [done|]. cbn. congruence.
Qed.

Lemma events_for_event_of_length track_id t cr :
  (length (events_for track_id (event_of t cr)) <= 1)%nat.
Proof.
  destruct cr as [d|]; [|cbn; lia]. unfold events_for, event_of.
  destruct (decide (t = track_id)) as [->|Hne].
  - rewrite filter_cons_True by done. cbn. lia.
  - rewrite filter_cons_False by (cbn; congruence). cbn. lia.
Qed.

Lemma observe_all_counted_silent c obs track_id :
  track_id ∈ counted_ids c -> events_for track_id (observe_all c obs).2 = [].
Proof.
  revert c. induction obs as [|[t p] obs IH]; intros c Hin; [done|].
  rewrite observe_all_cons. cbn [snd]. unfold events_for. rewrite filter_app.
  fold (events_for track_id (event_of t (observe c t p).2)).
  fold (events_for track_id (observe_all (observe c t p).1 obs).2).
  rewrite IH by (by apply (proj1 (observe_counted_step c t p))).
  destruct (decide (t = track_id)) as [->|Hne].
  - by rewrite (proj1 (observe_counted_silent c track_id p Hin)).
  - by rewrite events_for_event_of_ne.
Qed.

Lemma observe_all_events_le c obs track_id :
  (length (events_for track_id (observe_all c obs).2) <= 1)%nat.
Proof.
  revert c. induction obs as [|[t p] obs IH]; intros c; [cbn; lia|].
  rewrite observe_all_cons. cbn [snd]. unfold events_for. rewrite filter_app.
  fold (events_for track_id (event_of t (observe c t p).2)).
  fold (events_for track_id (observe_all (observe c t p).1 obs).2).
  rewrite length_app.
  destruct (decide (t = track_id)) as [->|Hne].
  - destruct (observe c track_id p).2 as [d|] eqn:Hd.
    + rewrite observe_all_counted_silent by (by eapply observe_event_counted).
      pose proof (events_for_event_of_length track_id track_id (Some d)).
      cbn [length]. lia.
    + specialize (IH (observe c track_id p).1). cbn. lia.
  - rewrite events_for_event_of_ne by done. specialize (IH (observe c t p).1).
    cbn. lia.
Qed.

(** C2. Whatever the counter and the sequence of observations, at most one
    event is emitted for a given identifier. Once an observation of a track
    has emitted ENTRY or EXIT, the observations that follow emit no event for
    that track, and every later observation of it returns no event and
    leaves both counters as they are, whatever its positions do. *)
Theorem at_most_one_event :
  (forall c obs track_id,
     (length (events_for track_id (observe_all c obs).2) <= 1)%nat) /\
  (forall c track_id p d obs,
     (observe c track_id p).2 = Some d ->
     let c1 := (observe c track_id p).1 in
     let c2 := (observe_all c1 obs).1 in
     events_for track_id (observe_all c1 obs).2 = [] /\
     forall p',
       (observe c2 track_id p').2 = None /\
       entry_count (observe c2 track_id p').1 = entry_count c2 /\
       exit_count (observe c2 track_id p').1 = exit_count c2).
Proof.
  split; [apply observe_all_events_le|].
  intros c tid p d obs Hd c1 c2. subst c1 c2.
  pose proof (observe_event_counted c tid p d Hd) as Hin.
  split; [by apply observe_all_counted_silent|].
  intros p'. apply observe_counted_silent. by apply observe_all_counted_keeps.
Qed.

Lemma at_most_one_event_witness :
  let c := (observe counter50 7 (5, 10)).1 in
  let c1 := (observe c 7 (5, 60)).1 in
  let obs := [(7, (5, 10)); (8, (1, 1)); (7, (5, 60)); (7, (5, 10))] in
  let c2 := (observe_all c1 obs).1 in
  (observe c 7 (5, 60)).2 = Some ENTRY /\
  events_for 7 (observe_all c1 obs).2 = [] /\
  (observe c2 7 (5, 60)).2 = None /\
  entry_count (observe c2 7 (5, 60)).1 = entry_count c2 /\
  exit_count (observe c2 7 (5, 60)).1 = exit_count c2.
Proof.
  intros c c1 obs c2.
  assert (H : (observe c 7 (5, 60)).2 = Some ENTRY) by (vm_compute; reflexivity).
  split; [exact H|].
  destruct (proj2 at_most_one_event c 7 (5, 60) ENTRY obs H) as [H1 H2].
  split; [exact H1|]. exact (H2 (5, 60)).
Defined.

(** Down through the line, back up, and down again: one event. *)
Example crossing_twice_counts_once :
  observe_all counter50 [(7, (5, 10)); (7, (5, 60)); (7, (5, 10)); (7, (5, 60))] =
    ((observe_all counter50 [(7, (5, 10)); (7, (5, 60)); (7, (5, 10)); (7, (5, 60))]).1,
     [(7, ENTRY)]) /\
  summary (observe_all counter50
             [(7, (5, 10)); (7, (5, 60)); (7, (5, 10)); (7, (5, 60))]).1 = (1, 0, 1).
Proof. vm_compute. split; reflexivity. Qed.

(** ** The history is the last 30 positions *)

Lemma last_n_length {A} n (l : list A) : length (last_n n l) = (length l `min` n)%nat.
Proof. unfold last_n. rewrite length_drop. lia. Qed.

Lemma last_n_short {A} n (l : list A) : (length l <= n)%nat -> last_n n l = l.
Proof.
  intros H. unfold last_n. by replace (length l - n)%nat with 0%nat by lia.
Qed.

Lemma last_n_app_last_n {A} n (a b : list A) :
  last_n n (last_n n a ++ b) = last_n n (a ++ b).
Proof.
  destruct (decide (length a <= n)%nat) as [Hle|Hgt].
  - by rewrite (last_n_short n a).
  - unfold last_n at 1 3. rewrite !length_app, last_n_length.
    unfold last_n.
    replace (length a `min` n + length b - n)%nat with (length b) by lia.
    replace (length a + length b - n)%nat with ((length a - n) + length b)%nat by lia.
    rewrite <- drop_drop. f_equal. by rewrite drop_app_le by lia.
Qed.

Lemma push_position_last_n track p :
  (length track <= 30)%nat -> push_position track p = last_n 30 (track ++ [p]).
Proof.
  intros Hle. unfold push_position, last_n. rewrite length_app. cbn [length].
  destruct (30 <? length track + 1)%nat eqn:E.
  - apply Nat.ltb_lt in E. by replace (length track + 1 - 30)%nat with 1%nat by lia.
  - apply Nat.ltb_ge in E. by replace (length track + 1 - 30)%nat with 0%nat by lia.
Qed.

Lemma positions_of_cons track_id t p obs :
  positions_of track_id ((t, p) :: obs) =
    if decide (t = track_id) then p :: positions_of track_id obs
    else positions_of track_id obs.
Proof.
  unfold positions_of. destruct (decide (t = track_id)) as [->|Hne].
  - by rewrite filter_cons_True.
  - by rewrite filter_cons_False.
Qed.

Lemma positions_of_own track_id ps :
  positions_of track_id (map (pair track_id) ps) = ps.
Proof.
  induction ps as [|p ps IH]; [done|]. cbn [map].
  rewrite positions_of_cons, decide_True by done. by rewrite IH.
Qed.

Lemma history_observe_all c obs track_id :
  (length (history_of c track_id) <= 30)%nat ->
  history_of (observe_all c obs).1 track_id =
    last_n 30 (history_of c track_id ++ positions_of track_id obs).
Proof.
  revert c. induction obs as [|[t p] obs IH]; intros c Hle.
  - cbn. unfold positions_of. cbn. rewrite app_nil_r. by rewrite last_n_short.
  - rewrite observe_all_cons. cbn [fst]. rewrite positions_of_cons.
    destruct (decide (t = track_id)) as [->|Hne].
    + rewrite IH.
      * rewrite observe_history, push_position_last_n by done.
        rewrite last_n_app_last_n. by rewrite <- app_assoc.
      * rewrite observe_history, push_position_length.
        destruct (30 <? S _)%nat eqn:E; [done|]. apply Nat.ltb_ge in E. lia.
    + rewrite IH; rewrite observe_history_ne by done; done.
Qed.

Lemma fresh_history c track_id : fresh c -> history_of c track_id = [].
Proof. intros (_ & _ & _ & Hh). unfold history_of. by rewrite Hh, lookup_empty. Qed.

Lemma reachable_history_length c track_id :
  reachable c -> (length (history_of c track_id) <= 30)%nat.
Proof.
  induction 1 as [env roi conf c Hinit|c t p Hc IH].
  - rewrite fresh_history by (by eapply init_fresh). cbn. lia.
  - destruct (decide (t = track_id)) as [->|Hne].
    + rewrite observe_history, push_position_length.
      destruct (30 <? S _)%nat eqn:E; [done|]. apply Nat.ltb_ge in E. lia.
    + by rewrite observe_history_ne.
Qed.

(** C3. The history of a track is a first-in first-out buffer of capacity
    30. An observation appends the position at the end and drops the oldest
    entry when the length would exceed 30; in every state reached from
    construction a history holds at most 30 entries; after any observations
    on a new counter it is the last 30 positions observed for the track, in
    order of arrival; after 40 positions for one track it is exactly the last
    30 of them. [observe] is a total function: no observation raises. *)
Theorem history_is_last_30 :
  (forall track p,
     (length track <= 30)%nat ->
     push_position track p = last_n 30 (track ++ [p]) /\
     (length (push_position track p) <= 30)%nat) /\
  (forall c track_id, reachable c -> (length (history_of c track_id) <= 30)%nat) /\
  (forall c obs track_id,
     fresh c ->
     history_of (observe_all c obs).1 track_id = last_n 30 (positions_of track_id obs) /\
     (length (history_of (observe_all c obs).1 track_id) <= 30)%nat) /\
  (forall c track_id ps,
     fresh c -> length ps = 40%nat ->
     history_of (observe_all c (map (pair track_id) ps)).1 track_id = drop 10 ps /\
     length (history_of (observe_all c (map (pair track_id) ps)).1 track_id) = 30%nat).
Proof.
  split; [|split; [|split]].
  - intros track p Hle. split; [by apply push_position_last_n|].
    rewrite push_position_length. destruct (30 <? S _)%nat eqn:E; [done|].
    apply Nat.ltb_ge in E. lia.
  - intros c tid Hc. by apply reachable_history_length.
  - intros c obs tid Hf.
    rewrite history_observe_all; rewrite fresh_history by done; cbn [app length]; [|lia].
    split; [done|]. rewrite last_n_length. lia.
  - intros c tid ps Hf Hlen.
    rewrite history_observe_all; rewrite fresh_history by done; cbn [app length]; [|lia].
    rewrite positions_of_own. unfold last_n. rewrite Hlen. cbn [Nat.sub].
    split; [done|]. rewrite length_drop. lia.
Qed.

Lemma history_is_last_30_witness :
  let ps := map (fun i => (0, Z.of_nat i)) (seq 0 40) in
  let c := (observe_all counter50 (map (pair 7) ps)).1 in
  let track := push_position [(1, 2)] (3, 4) in
  (track = last_n 30 ([(1, 2)] ++ [(3, 4)]) /\ (length track <= 30)%nat) /\
  (length (history_of c 7) <= 30)%nat /\
  history_of c 7 = last_n 30 (positions_of 7 (map (pair 7) ps)) /\
  history_of c 7 = drop 10 ps.
Proof.
  intros ps c track.
  assert (Hf : fresh counter50) by (by repeat split).
  split; [|split; [|split]].
  - apply (proj1 history_is_last_30 [(1, 2)] (3, 4)). cbn. lia.
  - apply (proj1 (proj2 history_is_last_30) c 7).
    apply reachable_observe_all.
    apply (reachable_init env100 0.5%float 0.5%float). vm_compute. reflexivity.
  - apply (proj1 (proj2 (proj2 history_is_last_30)) counter50 (map (pair 7) ps) 7 Hf).
  - apply (proj2 (proj2 (proj2 history_is_last_30)) counter50 7 ps Hf). reflexivity.
Defined.

(** ** Abscissas play no part *)

Lemma neg_index_fmap {A B} (f : A -> B) (l : list A) k :
  neg_index (f <$> l) k = f <$> neg_index l k.
Proof.
  unfold neg_index. rewrite length_fmap.
  destruct (k <=? length l)%nat; [|done]. by rewrite list_lookup_fmap.
Qed.

Lemma push_position_snd (h1 h2 : list position) (p1 p2 : position) :
  h1.*2 = h2.*2 -> p1.2 = p2.2 ->
  (push_position h1 p1).*2 = (push_position h2 p2).*2.
Proof.
  intros Hh Hp. unfold push_position.
  pose proof (f_equal length Hh) as Hlen. rewrite !length_fmap in Hlen.
  unfold position in *. rewrite !length_app, Hlen. cbn [length].
  destruct (30 <? length h2 + 1)%nat; rewrite ?fmap_drop, !fmap_app, Hh; cbn;
    by rewrite Hp.
Qed.

Lemma observe_decision c track_id p :
  (observe c track_id p).2 =
    crossing_of_ordinates (roi_line_y c) (counted_ids c) track_id
      (push_position (history_of c track_id) p).*2.
Proof.
  unfold observe, crossing_of_ordinates.
  cbn [counted_ids set_track_history roi_line_y].
  rewrite length_fmap, !neg_index_fmap.
  destruct (bool_decide _ && bool_decide _); [|done].
  destruct (neg_index _ 2) as [prev|], (neg_index _ 1) as [curr|]; cbn; try done.
  destruct (_ && _); [done|]. destruct (_ && _); done.
Qed.

Lemma observe_effect c track_id p :
  let c' := (observe c track_id p).1 in
  roi_line_y c' = roi_line_y c /\
  entry_count c' =
    entry_count c + (if decide ((observe c track_id p).2 = Some ENTRY) then 1 else 0) /\
  exit_count c' =
    exit_count c + (if decide ((observe c track_id p).2 = Some EXIT) then 1 else 0) /\
  counted_ids c' =
    match (observe c track_id p).2 with
    | Some _ => {[track_id]} ∪ counted_ids c
    | None => counted_ids c
    end.
Proof.
  cbn zeta. split; [apply observe_frame|].
  destruct (observe_cases c track_id p)
    as [(Hcr & _ & _ & _ & He & Hx & Hids)
       |[(Hcr & _ & _ & _ & _ & He & Hx & Hids)|(Hcr & _ & He & Hx & Hids)]];
    rewrite Hcr, He, Hx, Hids; repeat split; repeat case_decide; try done; lia.
Qed.

Lemma observe_same_up_to_x c1 c2 track_id p1 p2 :
  same_up_to_x c1 c2 -> p1.2 = p2.2 ->
  same_up_to_x (observe c1 track_id p1).1 (observe c2 track_id p2).1 /\
  (observe c1 track_id p1).2 = (observe c2 track_id p2).2.
Proof.
  intros (Hl & He & Hx & Hc & Hh) Hp.
  assert (Hcr : (observe c1 track_id p1).2 = (observe c2 track_id p2).2).
  { rewrite !observe_decision, Hl, Hc.
    by rewrite (push_position_snd _ _ _ _ (Hh track_id) Hp). }
  split; [|done].
  destruct (observe_effect c1 track_id p1) as (Hl1 & He1 & Hx1 & Hc1).
  destruct (observe_effect c2 track_id p2) as (Hl2 & He2 & Hx2 & Hc2).
  repeat split.
  - congruence.
  - rewrite He1, He2, Hcr, He. done.
  - rewrite Hx1, Hx2, Hcr, Hx. done.
  - rewrite Hc1, Hc2, Hcr, Hc. done.
  - intros t. destruct (decide (track_id = t)) as [<-|Hne].
    + rewrite !observe_history. by apply push_position_snd.
    + rewrite !observe_history_ne by done. apply Hh.
Qed.

Lemma observe_all_same_up_to_x c1 c2 obs1 obs2 :
  same_up_to_x c1 c2 -> Forall2 same_track_same_y obs1 obs2 ->
  same_up_to_x (observe_all c1 obs1).1 (observe_all c2 obs2).1 /\
  (observe_all c1 obs1).2 = (observe_all c2 obs2).2.
Proof.
  intros Hc Hobs. revert c1 c2 Hc.
  induction Hobs as [|[t1 p1] [t2 p2] obs1 obs2 [Ht Hy] Hobs IH]; intros c1 c2 Hc.
  - done.
  - cbn in Ht, Hy. subst t2. rewrite !observe_all_cons. cbn [fst snd].
    destruct (observe_same_up_to_x c1 c2 t1 p1 p2 Hc Hy) as [Hc' Hcr].
    destruct (IH _ _ Hc') as [Hc'' Hev]. split; [done|]. by rewrite Hcr, Hev.
Qed.

(** C10. The decision of an observation is a function of the line, the
    counted set, the identifier and the ordinates of the history. Two
    sequences of observations with the same identifiers and the same
    ordinates, whatever their abscissas, give after every step (every common
    prefix) the same events and the same two counters. *)
Theorem abscissas_irrelevant :
  (forall c track_id p,
     (observe c track_id p).2 =
       crossing_of_ordinates (roi_line_y c) (counted_ids c) track_id
         (push_position (history_of c track_id) p).*2) /\
  (forall c1 c2 obs1 obs2,
     same_up_to_x c1 c2 -> Forall2 same_track_same_y obs1 obs2 ->
     forall n,
       let r1 := observe_all c1 (take n obs1) in
       let r2 := observe_all c2 (take n obs2) in
       r1.2 = r2.2 /\ entry_count r1.1 = entry_count r2.1 /\
       exit_count r1.1 = exit_count r2.1).
Proof.
  split; [apply observe_decision|].
  intros c1 c2 obs1 obs2 Hc Hobs n r1 r2. subst r1 r2.
  destruct (observe_all_same_up_to_x c1 c2 (take n obs1) (take n obs2) Hc)
    as [(_ & He & Hx & _) Hev]; [by apply Forall2_take|done].
Qed.

Lemma abscissas_irrelevant_witness :
  let obs1 := [(7, (0, 10)); (8, (5, 70)); (7, (3, 60)); (8, (9, 20))] in
  let obs2 := [(7, (100, 10)); (8, (-4, 70)); (7, (51, 60)); (8, (0, 20))] in
  let r1 := observe_all counter50 (take 3 obs1) in
  let r2 := observe_all counter50 (take 3 obs2) in
  r1.2 = r2.2 /\ entry_count r1.1 = entry_count r2.1 /\
  exit_count r1.1 = exit_count r2.1.
Proof.
  intros obs1 obs2.
  apply (proj2 abscissas_irrelevant counter50 counter50 obs1 obs2).
  - by repeat split.
  - repeat constructor.
Defined.

(** ** Starting over *)

Lemma reset_observe c track_id p : reset (observe c track_id p).1 = reset c.
Proof.
  unfold observe. destruct (bool_decide _ && bool_decide _); [|done].
  destruct (neg_index (push_position (history_of c track_id) p) 2),
    (neg_index (push_position (history_of c track_id) p) 1); try done.
  cbn. destruct (_ && _); [done|]. destruct (_ && _); done.
Qed.

Lemma reset_observe_all c obs : reset (observe_all c obs).1 = reset c.
Proof.
  revert c. induction obs as [|[t p] obs IH]; intros c; [done|].
  rewrite observe_all_cons. cbn [fst]. by rewrite IH, reset_observe.
Qed.

Lemma reset_fresh c : fresh c -> reset c = c.
Proof. destruct c. intros (He & Hx & Hc & Hh). cbn in *. by subst. Qed.

(** C5. [reset()] brings the counter back to the state [__init__] left it
    in: after any observations on a counter just built, resetting gives that
    counter again. Whatever the state, after [reset()] no track has a
    history, the counted set is empty, both counters are zero and the
    summary is (0, 0, 0); and any track, counted before or not, triggers an
    event again when it next crosses the line. *)
Theorem reset_restores_initial_state :
  (forall env roi conf c0 obs,
     init env roi conf = inr c0 -> reset (observe_all c0 obs).1 = c0) /\
  (forall c,
     fresh (reset c) /\ roi_line_y (reset c) = roi_line_y c /\
     summary (reset c) = (0, 0, 0) /\
     (forall track_id, history_of (reset c) track_id = [])) /\
  (forall c track_id x1 x2,
     let line := roi_line_y c in
     observe_all (reset c) [(track_id, (x1, line - 1)); (track_id, (x2, line))] =
       ((observe_all (reset c) [(track_id, (x1, line - 1)); (track_id, (x2, line))]).1,
        [(track_id, ENTRY)]) /\
     summary (observe_all (reset c)
                [(track_id, (x1, line - 1)); (track_id, (x2, line))]).1 = (1, 0, 1)).
Proof.
  assert (Hfresh : forall c, fresh (reset c)) by (intros c; by repeat split).
  split; [|split].
  - intros env roi conf c0 obs Hinit.
    rewrite reset_observe_all. apply reset_fresh. by eapply init_fresh.
  - intros c. split; [done|]. split; [done|]. split; [done|].
    intros tid. by apply fresh_history.
  - intros c tid x1 x2 line. subst line. rewrite observe_pair by done.
    cbn [snd roi_line_y reset set_track_history set_counted_ids set_exit_count
         set_entry_count].
    rewrite (proj2 (Z.ltb_lt (roi_line_y c - 1) (roi_line_y c))) by lia.
    rewrite Z.leb_refl. cbn. done.
Qed.

Lemma reset_restores_initial_state_witness :
  reset (observe_all counter50 [(7, (5, 10)); (7, (5, 60)); (8, (0, 70))]).1 = counter50.
Proof.
  apply (proj1 reset_restores_initial_state env100 0.5%float 0.5%float).
  vm_compute. reflexivity.
Defined.

(** Track 7 is counted, crosses again without effect, then, after a reset,
    is counted anew. *)
Example counted_again_after_reset :
  let c := (observe_all counter50 [(7, (5, 10)); (7, (5, 60))]).1 in
  summary c = (1, 0, 1) /\
  (observe_all c [(7, (5, 10)); (7, (5, 60))]).2 = [] /\
  summary (reset c) = (0, 0, 0) /\
  (observe_all (reset c) [(7, (5, 10)); (7, (5, 60))]).2 = [(7, ENTRY)].
Proof. vm_compute. repeat split; reflexivity. Qed.

(** ** Construction *)

Lemma bind_inr {A B} (m : result A) (k : A -> result B) b :
  bind m k = inr b <-> exists a, m = inr a /\ k a = inr b.
Proof.
  destruct m as [e|a]; cbn; split.
  - done.
  - by intros (a & Ha & _).
  - eauto.
  - by intros (a' & [= <-] & Hk).
Qed.


(** *** Binary64: a product with a factor of [0, 1] does not overflow *)























(** ** The centre of a box *)

Lemma Qtrunc_comp (q1 q2 : Q) : (q1 == q2)%Q -> Qtrunc q1 = Qtrunc q2.
Proof.
  intros H. unfold Qtrunc.
  rewrite (Qleb_comp 0%Q 0%Q (Qeq_refl 0%Q) q1 q2 H).
  by rewrite (Qfloor_comp q1 q2 H), (Qceiling_comp q1 q2 H).
Qed.

Lemma Qtrunc_inject_Z (z : Z) : Qtrunc (inject_Z z) = z.
Proof. unfold Qtrunc. rewrite Qfloor_Z, Qceiling_Z. by destruct (Qle_bool _ _). Qed.

Lemma scaled_by_power_nonneg (a e : Z) :
  0 <= e -> (inject_Z a * 2 ^ e == inject_Z (a * 2 ^ e))%Q.
Proof.
  intros He. rewrite inject_Z_mult. rewrite (Zpower_Qpower 2 e He). reflexivity.
Qed.

Lemma scaled_by_power_neg (a : Z) (k : positive) :
  (inject_Z a * 2 ^ (Zneg k) == a # (2 ^ k))%Q.
Proof.
  rewrite (Qmake_Qdiv a (2 ^ k)). unfold Qdiv.
  apply Qmult_comp; [reflexivity|].
  change (2 ^ Z.neg k)%Q with (/ (2 ^ Z.pos k))%Q.
  apply Qinv_comp.
  rewrite Pos2Z.inj_pow. symmetry. apply (Zpower_Qpower 2 (Z.pos k)). lia.
Qed.

(** [int] truncates the value of a finite float toward zero, and raises on
    the others. *)
Lemma py_int_float_value (x : float) :
  match float_value x with
  | Some q => py_int x = inr (Qtrunc q)
  | None => exists e, py_int x = inl e
  end.
Proof.
  unfold float_value, py_int. destruct (Prim2SF x) as [s|s| |s m e].
  - reflexivity.
  - by exists OverflowError.
  - by exists ValueError.
  - unfold ret. f_equal. destruct e as [|k|k].
    + rewrite (Qtrunc_comp _ (inject_Z (cond_Zopp s (Z.pos m) * 2 ^ 0)))
        by (by apply scaled_by_power_nonneg).
      rewrite Qtrunc_inject_Z, Z.shiftl_mul_pow2 by lia.
      destruct s; unfold cond_Zopp; ring.
    + rewrite (Qtrunc_comp _ (inject_Z (cond_Zopp s (Z.pos m) * 2 ^ Z.pos k)))
        by (apply scaled_by_power_nonneg; lia).
      rewrite Qtrunc_inject_Z, Z.shiftl_mul_pow2 by lia.
      destruct s; unfold cond_Zopp; ring.
    + rewrite (Qtrunc_comp _ _ (scaled_by_power_neg _ k)).
      change (Z.shiftl (Z.pos m) (Z.neg k)) with (Z.shiftr (Z.pos m) (Z.pos k)).
      rewrite Z.shiftr_div_pow2 by lia. rewrite <- Pos2Z.inj_pow.
      destruct s; reflexivity.
Qed.

Lemma py_int_inr (x : float) (i : Z) :
  py_int x = inr i -> exists q, float_value x = Some q /\ i = Qtrunc q.
Proof.
  intros Hi. pose proof (py_int_float_value x) as H.
  destruct (float_value x) as [q|].
  - exists q. split; [done|]. congruence.
  - destruct H as [e He]. congruence.
Qed.

(** C8 does not hold as stated. The box with corners (0, 0) and (1, 1):
    its centre is (1/2, 1/2), the position computed is (0, 0). *)
Lemma box_center_not_geometric :
  box_center (0%float, 0%float, 1%float, 1%float) = inr (0, 0) /\
  ~ is_geometric_center (0%float, 0%float, 1%float, 1%float) (0, 0).
Proof.
  split; [vm_compute; reflexivity|].
  intros (qx1 & qy1 & qx2 & qy2 & H1 & _ & H2 & _ & Hx & _).
  vm_compute in H1, H2. injection H1 as <-. injection H2 as <-.
  vm_compute in Hx. discriminate Hx.
Qed.

(** C8, as the code has it. The position of a box is
    [((int(x1) + int(x2)) // 2, (int(y1) + int(y2)) // 2)]: each coordinate
    truncated toward zero, then the midpoint of the truncated coordinates
    rounded down. It is the geometric centre when the coordinates are whole
    numbers whose sums are even. *)
Theorem box_center_truncated_midpoint :
  forall x1 y1 x2 y2 p,
    box_center (x1, y1, x2, y2) = inr p ->
    exists qx1 qy1 qx2 qy2,
      float_value x1 = Some qx1 /\ float_value y1 = Some qy1 /\
      float_value x2 = Some qx2 /\ float_value y2 = Some qy2 /\
      p = ((Qtrunc qx1 + Qtrunc qx2) / 2, (Qtrunc qy1 + Qtrunc qy2) / 2) /\
      2 * p.1 <= Qtrunc qx1 + Qtrunc qx2 <= 2 * p.1 + 1 /\
      2 * p.2 <= Qtrunc qy1 + Qtrunc qy2 <= 2 * p.2 + 1 /\
      (forall i1 i2,
         (qx1 == inject_Z i1)%Q -> (qx2 == inject_Z i2)%Q -> Z.even (i1 + i2) = true ->
         (inject_Z p.1 == (qx1 + qx2) / 2)%Q) /\
      (forall j1 j2,
         (qy1 == inject_Z j1)%Q -> (qy2 == inject_Z j2)%Q -> Z.even (j1 + j2) = true ->
         (inject_Z p.2 == (qy1 + qy2) / 2)%Q).
Proof.
  intros x1 y1 x2 y2 p H. unfold box_center in H.
  apply bind_inr in H as (i1 & H1 & H). apply bind_inr in H as (j1 & H2 & H).
  apply bind_inr in H as (i2 & H3 & H). apply bind_inr in H as (j2 & H4 & H).
  injection H as <-.
  apply py_int_inr in H1 as (qx1 & Hx1 & ->). apply py_int_inr in H2 as (qy1 & Hy1 & ->).
  apply py_int_inr in H3 as (qx2 & Hx2 & ->). apply py_int_inr in H4 as (qy2 & Hy2 & ->).
  exists qx1, qy1, qx2, qy2. repeat (split; [done|]). cbn [fst snd].
  assert (Hmid : forall a b : Z, 2 * ((a + b) / 2) <= a + b <= 2 * ((a + b) / 2) + 1).
  { intros a b. pose proof (Z.div_mod (a + b) 2 ltac:(lia)).
    pose proof (Z.mod_pos_bound (a + b) 2 ltac:(lia)). lia. }
  assert (Hexact : forall (q1 q2 : Q) (a b : Z),
             (q1 == inject_Z a)%Q -> (q2 == inject_Z b)%Q -> Z.even (a + b) = true ->
             (inject_Z ((Qtrunc q1 + Qtrunc q2) / 2) == (q1 + q2) / 2)%Q).
  { intros q1 q2 a b Ha Hb Hev.
    rewrite (Qtrunc_comp _ _ Ha), (Qtrunc_comp _ _ Hb), !Qtrunc_inject_Z, Ha, Hb.
    apply Z.even_spec in Hev as [k Hk]. rewrite <- inject_Z_plus, Hk.
    replace (2 * k) with (k * 2) by lia. rewrite Z.div_mul by lia.
    rewrite inject_Z_mult. field. }
  repeat split; try apply Hmid; intros a b Ha Hb Hev; by apply (Hexact _ _ a b).
Qed.

Lemma box_center_truncated_midpoint_witness :
  exists qx1 qy1 qx2 qy2,
    float_value 10.5%float = Some qx1 /\ float_value 20%float = Some qy1 /\
    float_value 30.75%float = Some qx2 /\ float_value 41%float = Some qy2 /\
    (20, 30) = ((Qtrunc qx1 + Qtrunc qx2) / 2, (Qtrunc qy1 + Qtrunc qy2) / 2).
Proof.
  destruct (box_center_truncated_midpoint
              10.5%float 20%float 30.75%float 41%float (20, 30))
    as (qx1 & qy1 & qx2 & qy2 & H1 & H2 & H3 & H4 & Hp & _).
  - vm_compute. reflexivity.
  - exists qx1, qy1, qx2, qy2. repeat split; assumption.
Defined.

(** * Further properties of the counting logic *)

#[local] Set Warnings "-clear-no-such-hyp".

(** ** One observation in closed form *)

Lemma observe_eq c track_id p :
  observe c track_id p =
    let cr := crossing_of_ordinates (roi_line_y c) (counted_ids c) track_id
                (push_position (history_of c track_id) p).*2 in
    (mkFootfallCounter (roi_position c) (confidence c) (width c) (height c) (fps c)
       (total_frames c) (roi_line_y c)
       (entry_count c + (if decide (cr = Some ENTRY) then 1 else 0))
       (exit_count c + (if decide (cr = Some EXIT) then 1 else 0))
       (match cr with Some _ => {[track_id]} ∪ counted_ids c | None => counted_ids c end)
       (<[track_id := push_position (history_of c track_id) p]> (track_history c)),
     cr).
Proof.
  unfold observe, crossing_of_ordinates.
  cbn [counted_ids set_track_history roi_line_y].
  rewrite length_fmap, !neg_index_fmap.
  destruct c as [rp cf w h f n line ec xc ids hist].
  unfold set_track_history, set_entry_count, set_exit_count, set_counted_ids.
  cbn [roi_position confidence width height fps total_frames roi_line_y
       entry_count exit_count counted_ids track_history].
  destruct (bool_decide _ && bool_decide _);
    [|cbn; rewrite !Z.add_0_r; reflexivity].
  destruct (neg_index _ 2) as [prev|], (neg_index _ 1) as [curr|]; cbn;
    try (rewrite !Z.add_0_r; reflexivity).
  destruct (_ && _); [cbn; rewrite !Z.add_0_r; reflexivity|].
  destruct (_ && _); cbn; rewrite !Z.add_0_r; reflexivity.
Qed.

(** ** A track seen for the first time, a track on the line *)

(** X1. The first observation of a track, one with no history yet, creates
    its history with that single position and counts nothing, wherever the
    position lies: no event, counters and counted set unchanged. *)
Theorem first_observation_never_counts :
  forall c track_id p,
    history_of c track_id = [] ->
    (observe c track_id p).2 = None /\
    history_of (observe c track_id p).1 track_id = [p] /\
    entry_count (observe c track_id p).1 = entry_count c /\
    exit_count (observe c track_id p).1 = exit_count c /\
    counted_ids (observe c track_id p).1 = counted_ids c.
Proof.
  intros c tid p Hh.
  assert (Hhist : history_of (observe c tid p).1 tid = [p])
    by (by rewrite observe_history, Hh).
  destruct (observe_cases c tid p)
    as [(_ & _ & Hlen & _)|[(_ & _ & Hlen & _)|(Hcr & _ & He & Hx & Hids)]];
    try (rewrite Hh in Hlen; cbn in Hlen; lia).
  done.
Qed.

Lemma first_observation_never_counts_witness :
  (observe counter50 7 (5, 80)).2 = None /\
  history_of (observe counter50 7 (5, 80)).1 7 = [(5, 80)].
Proof.
  destruct (first_observation_never_counts counter50 7 (5, 80)) as (H1 & H2 & _).
  - reflexivity.
  - by split.
Defined.

(** X2. A track whose last recorded position lies exactly on the line
    triggers nothing at its next observation, whatever that position is:
    a track first seen on the line and then moving across it is not counted
    at that step. *)
Theorem leaving_the_line_never_counts :
  forall c track_id p prev,
    last (history_of c track_id) = Some prev ->
    prev.2 = roi_line_y c ->
    (observe c track_id p).2 = None /\
    entry_count (observe c track_id p).1 = entry_count c /\
    exit_count (observe c track_id p).1 = exit_count c.
Proof.
  intros c tid p prev Hlast Hy.
  assert (Hne : history_of c tid <> []) by (by intros E; rewrite E in Hlast).
  assert (Hprev : neg_index (push_position (history_of c tid) p) 2 = Some prev)
    by (by rewrite push_position_prev).
  destruct (observe_cases c tid p)
    as [(_ & _ & _ & Hr & _)|[(_ & _ & _ & Hr & _)|(Hcr & _ & He & Hx & _)]];
    [exfalso|exfalso|done];
    destruct Hr as (pv & cu & Hp & _ & ? & ?); rewrite Hprev in Hp;
    simplify_eq; lia.
Qed.

Lemma leaving_the_line_never_counts_witness :
  let c := (observe counter50 7 (5, 50)).1 in
  (observe c 7 (5, 90)).2 = None /\ (observe c 7 (5, 10)).2 = None.
Proof.
  intros c. split.
  - apply (leaving_the_line_never_counts c 7 (5, 90) (5, 50)); reflexivity.
  - apply (leaving_the_line_never_counts c 7 (5, 10) (5, 50)); reflexivity.
Defined.

(** ** Tracks that stay on one side *)

Lemma neg_index_elem_of {A} (l : list A) k x : neg_index l k = Some x -> x ∈ l.
Proof.
  unfold neg_index. destruct (k <=? length l)%nat; [|done].
  intros H. by eapply list_elem_of_lookup_2.
Qed.

Lemma push_position_Forall (P : position -> Prop) track p :
  Forall P track -> P p -> Forall P (push_position track p).
Proof.
  intros Ht Hp. unfold push_position.
  assert (Forall P (track ++ [p])) by (apply Forall_app; auto).
  destruct (30 <? _)%nat; [by apply Forall_drop|done].
Qed.

Lemma observe_recorded_ordinates (P : Z -> Prop) c track_id p :
  recorded_ordinates P c -> P p.2 ->
  recorded_ordinates P (observe c track_id p).1.
Proof.
  intros Hc Hp t. destruct (decide (track_id = t)) as [<-|Hne].
  - rewrite observe_history. by apply push_position_Forall.
  - rewrite observe_history_ne by done. apply Hc.
Qed.

Lemma observe_one_side (P : Z -> Prop) c track_id p :
  (forall y1 y2, P y1 -> P y2 ->
     ~ (y1 < roi_line_y c /\ roi_line_y c <= y2) /\
     ~ (roi_line_y c < y1 /\ y2 <= roi_line_y c)) ->
  recorded_ordinates P c -> P p.2 ->
  (observe c track_id p).2 = None /\
  entry_count (observe c track_id p).1 = entry_count c /\
  exit_count (observe c track_id p).1 = exit_count c.
Proof.
  intros HP Hc Hp.
  pose proof (push_position_Forall (fun q => P q.2) _ p (Hc track_id) Hp) as Hall.
  rewrite Forall_forall in Hall.
  destruct (observe_cases c track_id p)
    as [(_ & _ & _ & Hr & _)|[(_ & _ & _ & Hr & _)|(Hcr & _ & He & Hx & _)]];
    [exfalso|exfalso|done];
    destruct Hr as (pv & cu & Hpv & Hcu & ? & ?);
    apply neg_index_elem_of, Hall in Hpv; apply neg_index_elem_of, Hall in Hcu;
    destruct (HP _ _ Hpv Hcu); tauto.
Qed.

Lemma observe_all_one_side (P : Z -> Prop) c obs :
  (forall y1 y2, P y1 -> P y2 ->
     ~ (y1 < roi_line_y c /\ roi_line_y c <= y2) /\
     ~ (roi_line_y c < y1 /\ y2 <= roi_line_y c)) ->
  recorded_ordinates P c -> Forall (fun o : Z * position => P o.2.2) obs ->
  (observe_all c obs).2 = [] /\
  entry_count (observe_all c obs).1 = entry_count c /\
  exit_count (observe_all c obs).1 = exit_count c.
Proof.
  intros HP Hc Hobs. revert c HP Hc.
  induction Hobs as [|[t p] obs Hp Hobs IH]; intros c HP Hc; [done|].
  rewrite observe_all_cons. cbn [fst snd].
  destruct (observe_one_side P c t p HP Hc Hp) as (Hcr & He & Hx).
  destruct (IH (observe c t p).1) as (Hev & He' & Hx').
  - by rewrite (proj2 (observe_frame c t p)).
  - by apply observe_recorded_ordinates.
  - rewrite Hcr, Hev, He', Hx'. done.
Qed.

(** X3. As long as every ordinate recorded and every ordinate observed is
    strictly above the line, or every one strictly below it, no observation
    emits an event and both counters keep their values, whatever the
    tracks and however many observations. *)
Theorem one_side_never_counts :
  forall c obs,
    (recorded_ordinates (fun y => y < roi_line_y c) c /\
     Forall (fun o : Z * position => o.2.2 < roi_line_y c) obs) \/
    (recorded_ordinates (fun y => roi_line_y c < y) c /\
     Forall (fun o : Z * position => roi_line_y c < o.2.2) obs) ->
    (observe_all c obs).2 = [] /\
    entry_count (observe_all c obs).1 = entry_count c /\
    exit_count (observe_all c obs).1 = exit_count c.
Proof.
  intros c obs [[Hc Hobs]|[Hc Hobs]].
  - apply (observe_all_one_side (fun y => y < roi_line_y c)); [|done|done].
    intros y1 y2 H1 H2. split; lia.
  - apply (observe_all_one_side (fun y => roi_line_y c < y)); [|done|done].
    intros y1 y2 H1 H2. split; lia.
Qed.

Lemma one_side_never_counts_witness :
  (observe_all counter50 [(7, (0, 10)); (8, (3, 49)); (7, (0, 20)); (7, (1, 30))]).2 = [] /\
  (observe_all counter50 [(7, (0, 51)); (8, (3, 99)); (7, (0, 70))]).2 = [].
Proof.
  split.
  - apply one_side_never_counts. left. split.
    + intros t. unfold history_of. cbn. rewrite lookup_empty. constructor.
    + repeat constructor.
  - apply one_side_never_counts. right. split.
    + intros t. unfold history_of. cbn. rewrite lookup_empty. constructor.
    + repeat constructor.
Defined.

(** ** What the counter remembers *)

Lemma observe_dom c track_id p :
  dom (track_history (observe c track_id p).1) = {[track_id]} ∪ dom (track_history c).
Proof. rewrite (proj1 (observe_frame c track_id p)). apply dom_insert_L. Qed.

(** X4. No track is ever dropped from the history: after any observations
    the tracks that have a history are those that had one before together
    with every identifier observed. *)
Theorem tracks_are_never_forgotten :
  forall c obs,
    dom (track_history (observe_all c obs).1) =
      dom (track_history c) ∪ list_to_set obs.*1.
Proof.
  intros c obs. revert c. induction obs as [|[t p] obs IH]; intros c.
  - cbn. set_solver +.
  - rewrite observe_all_cons. cbn [fst]. rewrite IH, observe_dom. cbn. set_solver +.
Qed.

Lemma push_position_nonempty track p : (1 <= length (push_position track p))%nat.
Proof.
  rewrite push_position_length.
  destruct (30 <? S (length track))%nat eqn:E; [apply Nat.ltb_lt in E|]; lia.
Qed.

Lemma push_position_keeps_two track p :
  (2 <= length track)%nat -> (2 <= length (push_position track p))%nat.
Proof.
  intros H. rewrite push_position_length.
  destruct (30 <? S (length track))%nat; lia.
Qed.

Lemma reachable_history_invariant :
  forall c,
    reachable c ->
    (forall track_id track,
       track_history c !! track_id = Some track -> (1 <= length track <= 30)%nat) /\
    (forall track_id,
       track_id ∈ counted_ids c -> (2 <= length (history_of c track_id))%nat) /\
    counted_ids c ⊆ dom (track_history c).
Proof.
  intros c Hc.
  assert (H12 :
    (forall tid track, track_history c !! tid = Some track -> (1 <= length track <= 30)%nat) /\
    (forall tid, tid ∈ counted_ids c -> (2 <= length (history_of c tid))%nat)).
  { induction Hc as [env roi conf c Hinit|c t p Hc [IH1 IH2]].
    - apply init_fresh in Hinit as (_ & _ & Hids & Hh). rewrite Hids, Hh.
      split; [intros tid track; by rewrite lookup_empty|set_solver].
    - split.
      + intros tid track. rewrite (proj1 (observe_frame c t p)).
        destruct (decide (t = tid)) as [->|Hne].
        * rewrite lookup_insert_eq. intros [= <-]. split.
          -- apply push_position_nonempty.
          -- pose proof (reachable_history_length _ tid (reachable_observe c tid p Hc)) as H.
             by rewrite observe_history in H.
        * rewrite lookup_insert_ne by done. apply IH1.
      + intros tid Hin. destruct (decide (t = tid)) as [->|Hne].
        * rewrite observe_history.
          destruct (observe_cases c tid p)
            as [(_ & _ & Hlen & _)|[(_ & _ & Hlen & _)|(_ & _ & _ & _ & Hids)]];
            try done.
          rewrite Hids in Hin. by apply push_position_keeps_two, IH2.
        * rewrite observe_history_ne by done. apply IH2.
          destruct (observe_cases c t p)
            as [(_ & _ & _ & _ & _ & _ & Hids)
               |[(_ & _ & _ & _ & _ & _ & _ & Hids)|(_ & _ & _ & _ & Hids)]];
            rewrite Hids in Hin; set_solver + Hin Hne. }
  destruct H12 as [H1 H2]. split; [done|]. split; [done|].
  intros tid Hin. apply H2 in Hin. apply elem_of_dom.
  unfold history_of in Hin. destruct (track_history c !! tid); [done|].
  cbn in Hin. lia.
Qed.


(** X5. In every state reached from construction: a track that has a
    history has between 1 and 30 positions in it, and a counted track has a
    history of at least 2 positions; so every counted identifier is the
    identifier of a track in the history. *)
Theorem counted_tracks_have_history :
  forall c,
    reachable c ->
    (forall track_id track,
       track_history c !! track_id = Some track -> (1 <= length track <= 30)%nat) /\
    (forall track_id,
       track_id ∈ counted_ids c -> (2 <= length (history_of c track_id))%nat) /\
    counted_ids c ⊆ dom (track_history c).
Proof. exact reachable_history_invariant. Qed.

Lemma counted_tracks_have_history_witness :
  let c := (observe_all counter50 [(7, (5, 10)); (8, (0, 70)); (7, (6, 60))]).1 in
  (2 <= length (history_of c 7))%nat /\ counted_ids c ⊆ dom (track_history c).
Proof.
  intros c.
  destruct (counted_tracks_have_history c) as (_ & H2 & H3).
  - apply reachable_observe_all.
    apply (reachable_init env100 0.5%float 0.5%float). vm_compute. reflexivity.
  - split; [|exact H3]. apply H2. vm_compute. set_solver.
Defined.

Lemma reachable_counts c :
  reachable c ->
  0 <= entry_count c /\ 0 <= exit_count c /\
  entry_count c + exit_count c = Z.of_nat (size (counted_ids c)).
Proof.
  induction 1 as [env roi conf c Hinit|c t p Hc (He & Hx & Hsum)].
  - apply init_fresh in Hinit as (He & Hx & Hids & _). rewrite He, Hx, Hids.
    by rewrite size_empty.
  - pose proof (observe_counts_le c t p) as [? ?].
    pose proof (observe_counted_step c t p) as [_ ?]. lia.
Qed.

(** X6. In every state reached from construction both counters are
    non-negative, their sum does not exceed the number of tracks seen, and
    the net flow of the summary lies between minus and plus the number of
    counted tracks. *)
Theorem counts_bounded_by_tracks :
  forall c,
    reachable c ->
    0 <= entry_count c /\ 0 <= exit_count c /\
    entry_count c + exit_count c <= Z.of_nat (size (dom (track_history c))) /\
    Z.abs (summary c).2 <= Z.of_nat (size (counted_ids c)).
Proof.
  intros c Hc. destruct (reachable_counts c Hc) as (He & Hx & Hsum).
  destruct (reachable_history_invariant c Hc) as (_ & _ & Hsub).
  apply subseteq_size in Hsub. unfold summary. cbn [snd]. lia.
Qed.

Lemma counts_bounded_by_tracks_witness :
  let c := (observe_all counter50 [(7, (5, 10)); (8, (0, 70)); (7, (6, 60))]).1 in
  0 <= entry_count c /\ 0 <= exit_count c /\
  entry_count c + exit_count c <= Z.of_nat (size (dom (track_history c))).
Proof.
  intros c.
  destruct (counts_bounded_by_tracks c) as (H1 & H2 & H3 & _).
  - apply reachable_observe_all.
    apply (reachable_init env100 0.5%float 0.5%float). vm_compute. reflexivity.
  - by repeat split.
Defined.

(** ** The events account for the counters *)

Lemma count_direction_app d evs1 evs2 :
  count_direction d (evs1 ++ evs2) = count_direction d evs1 + count_direction d evs2.
Proof. unfold count_direction. rewrite filter_app, length_app. lia. Qed.

Lemma accounted_refl c : accounted c c [].
Proof.
  unfold accounted, count_direction. cbn.
  repeat split; [lia|lia|set_solver +|constructor|set_solver +].
Qed.

Lemma accounted_trans c c1 c2 evs1 evs2 :
  accounted c c1 evs1 -> accounted c1 c2 evs2 -> accounted c c2 (evs1 ++ evs2).
Proof.
  intros (He1 & Hx1 & Hc1 & Hn1 & Hf1) (He2 & Hx2 & Hc2 & Hn2 & Hf2).
  unfold accounted. rewrite !count_direction_app, fmap_app, list_to_set_app_L.
  split; [lia|]. split; [lia|]. split; [rewrite Hc2, Hc1; set_solver +|].
  split.
  - apply NoDup_app. split; [done|]. split; [|done].
    intros x Hx Hx'. apply Hf2 in Hx'. apply Hx'. rewrite Hc1.
    apply elem_of_union_r. by apply elem_of_list_to_set.
  - intros x [Hx|Hx]%elem_of_app; [by apply Hf1|].
    apply Hf2 in Hx. rewrite Hc1 in Hx. set_solver + Hx.
Qed.

Lemma accounted_observe c track_id p :
  accounted c (observe c track_id p).1 (event_of track_id (observe c track_id p).2).
Proof.
  unfold accounted, count_direction.
  destruct (observe_cases c track_id p)
    as [(Hcr & Hn & _ & _ & He & Hx & Hids)
       |[(Hcr & Hn & _ & _ & _ & He & Hx & Hids)|(Hcr & _ & He & Hx & Hids)]];
    rewrite Hcr, He, Hx, Hids; cbn [event_of fmap list_fmap fst list_to_set foldr];
    (split; [by (rewrite ?filter_cons_True, ?filter_cons_False, ?filter_nil by done; cbn; lia)|]);
    (split; [by (rewrite ?filter_cons_True, ?filter_cons_False, ?filter_nil by done; cbn; lia)|]);
    (split; [set_solver +|]); (split; [repeat constructor; set_solver +|]).
  - intros t ->%list_elem_of_singleton. done.
  - intros t ->%list_elem_of_singleton. done.
  - intros t Ht. by apply elem_of_nil in Ht.
Qed.

Lemma accounted_observe_all c obs :
  accounted c (observe_all c obs).1 (observe_all c obs).2.
Proof.
  revert c. induction obs as [|[t p] obs IH]; intros c; [apply accounted_refl|].
  rewrite observe_all_cons. cbn [fst snd].
  eapply accounted_trans; [apply accounted_observe|apply IH].
Qed.

Lemma accounted_process_frame c r :
  accounted c (process_frame c r).1.1 (process_frame c r).1.2.
Proof.
  destruct (process_frame_observe_all c r) as (obs & Heq).
  pose proof (accounted_observe_all c obs) as H. rewrite <- Heq in H. exact H.
Qed.

(** X7. The events of a frame account for what the frame does to the
    counter, also when an exception cuts the frame short: [entry_count]
    grows by the number of ENTRY events and [exit_count] by the number of
    EXIT events, the counted set grows by exactly the identifiers of the
    events, and these are pairwise distinct and were not counted before the
    frame. The same holds of any sequence of observations. *)
Theorem events_account_for_counts :
  (forall c r, accounted c (process_frame c r).1.1 (process_frame c r).1.2) /\
  (forall c obs, accounted c (observe_all c obs).1 (observe_all c obs).2).
Proof. split; [apply accounted_process_frame|apply accounted_observe_all]. Qed.

(** ** Tracks do not interfere *)

Lemma counter_eq (c1 c2 : FootfallCounter) :
  roi_position c1 = roi_position c2 -> confidence c1 = confidence c2 ->
  width c1 = width c2 -> height c1 = height c2 -> fps c1 = fps c2 ->
  total_frames c1 = total_frames c2 -> roi_line_y c1 = roi_line_y c2 ->
  entry_count c1 = entry_count c2 -> exit_count c1 = exit_count c2 ->
  counted_ids c1 = counted_ids c2 -> track_history c1 = track_history c2 ->
  c1 = c2.
Proof. destruct c1, c2. cbn. by intros -> -> -> -> -> -> -> -> -> -> ->. Qed.

Lemma observe_static c track_id p :
  roi_position (observe c track_id p).1 = roi_position c /\
  confidence (observe c track_id p).1 = confidence c /\
  width (observe c track_id p).1 = width c /\
  height (observe c track_id p).1 = height c /\
  fps (observe c track_id p).1 = fps c /\
  total_frames (observe c track_id p).1 = total_frames c.
Proof. rewrite observe_eq. cbn. by repeat split. Qed.

Lemma crossing_of_ordinates_counted line (s1 s2 : gset Z) track_id ys :
  (track_id ∈ s1 <-> track_id ∈ s2) ->
  crossing_of_ordinates line s1 track_id ys = crossing_of_ordinates line s2 track_id ys.
Proof.
  intros H. unfold crossing_of_ordinates.
  by rewrite (bool_decide_ext (track_id ∉ s1) (track_id ∉ s2)) by tauto.
Qed.

Lemma observe_other_crossing c t1 p1 t2 p2 :
  t1 <> t2 -> (observe (observe c t1 p1).1 t2 p2).2 = (observe c t2 p2).2.
Proof.
  intros Hne. rewrite !observe_decision.
  rewrite (proj2 (observe_frame c t1 p1)), observe_history_ne by done.
  apply crossing_of_ordinates_counted.
  destruct (observe_effect c t1 p1) as (_ & _ & _ & ->).
  destruct (observe c t1 p1).2; set_solver + Hne.
Qed.

(** X8. Observations of two different tracks do not interfere: made in
    either order they leave the same counter, and each yields the crossing
    it would have yielded without the other. *)
Theorem distinct_tracks_commute :
  forall c t1 p1 t2 p2,
    t1 <> t2 ->
    (observe (observe c t1 p1).1 t2 p2).1 = (observe (observe c t2 p2).1 t1 p1).1 /\
    (observe (observe c t1 p1).1 t2 p2).2 = (observe c t2 p2).2 /\
    (observe (observe c t2 p2).1 t1 p1).2 = (observe c t1 p1).2.
Proof.
  intros c t1 p1 t2 p2 Hne.
  pose proof (observe_other_crossing c t1 p1 t2 p2 Hne) as H12.
  pose proof (observe_other_crossing c t2 p2 t1 p1 (not_eq_sym Hne)) as H21.
  split; [|done].
  destruct (observe_static c t1 p1) as (Ya1 & Ya2 & Ya3 & Ya4 & Ya5 & Ya6).
  destruct (observe_static c t2 p2) as (Yb1 & Yb2 & Yb3 & Yb4 & Yb5 & Yb6).
  destruct (observe_static (observe c t1 p1).1 t2 p2) as (Za1 & Za2 & Za3 & Za4 & Za5 & Za6).
  destruct (observe_static (observe c t2 p2).1 t1 p1) as (Zb1 & Zb2 & Zb3 & Zb4 & Zb5 & Zb6).
  destruct (observe_effect c t1 p1) as (La & Ea & Xa & Ia).
  destruct (observe_effect c t2 p2) as (Lb & Eb & Xb & Ib).
  destruct (observe_effect (observe c t1 p1).1 t2 p2) as (Lab & Eab & Xab & Iab).
  destruct (observe_effect (observe c t2 p2).1 t1 p1) as (Lba & Eba & Xba & Iba).
  apply counter_eq; try congruence.
  - rewrite Eab, Eba, Ea, Eb, H12, H21. lia.
  - rewrite Xab, Xba, Xa, Xb, H12, H21. lia.
  - rewrite Iab, Iba, Ia, Ib, H12, H21.
    destruct (observe c t1 p1).2, (observe c t2 p2).2; set_solver +.
  - rewrite (proj1 (observe_frame (observe c t1 p1).1 t2 p2)).
    rewrite (proj1 (observe_frame (observe c t2 p2).1 t1 p1)).
    rewrite !observe_history_ne by done.
    rewrite (proj1 (observe_frame c t1 p1)), (proj1 (observe_frame c t2 p2)).
    by apply insert_insert_ne.
Qed.

Lemma distinct_tracks_commute_witness :
  let c := (observe_all counter50 [(7, (5, 10)); (8, (0, 70))]).1 in
  (observe (observe c 7 (5, 60)).1 8 (0, 20)).1 =
    (observe (observe c 8 (0, 20)).1 7 (5, 60)).1 /\
  (observe (observe c 7 (5, 60)).1 8 (0, 20)).2 = Some EXIT /\
  (observe (observe c 8 (0, 20)).1 7 (5, 60)).2 = Some ENTRY.
Proof.
  intros c.
  destruct (distinct_tracks_commute c 7 (5, 60) 8 (0, 20)) as (H1 & H2 & H3); [done|].
  split; [exact H1|]. rewrite H2, H3. vm_compute. by split.
Defined.

(** ** The two directions are treated alike *)

Lemma push_position_fmap (f : position -> position) track p :
  push_position (f <$> track) (f p) = f <$> push_position track p.
Proof.
  unfold push_position. rewrite !length_app, length_fmap. cbn [length].
  destruct (30 <? _)%nat; rewrite ?fmap_drop, fmap_app; done.
Qed.

Lemma mirror_ordinates line (track : list position) :
  (mirror line <$> track).*2 = (fun y => 2 * line - y) <$> track.*2.
Proof. rewrite <- !list_fmap_compose. by apply list_fmap_ext. Qed.

Lemma crossing_of_ordinates_mirror line counted track_id ys :
  crossing_of_ordinates line counted track_id ((fun y => 2 * line - y) <$> ys) =
    opposite <$> crossing_of_ordinates line counted track_id ys.
Proof.
  unfold crossing_of_ordinates. rewrite length_fmap, !neg_index_fmap.
  destruct (bool_decide _ && bool_decide _); [|done].
  destruct (neg_index ys 2) as [prev|], (neg_index ys 1) as [curr|]; cbn; try done.
  repeat match goal with
         | |- context [(?a <? ?b)] => destruct (Z.ltb_spec a b)
         | |- context [(?a <=? ?b)] => destruct (Z.leb_spec a b)
         end; cbn; try done; lia.
Qed.

Lemma observe_mirrored c1 c2 track_id p :
  mirrored c1 c2 ->
  mirrored (observe c1 track_id p).1 (observe c2 track_id (mirror (roi_line_y c1) p)).1 /\
  (observe c2 track_id (mirror (roi_line_y c1) p)).2 = opposite <$> (observe c1 track_id p).2.
Proof.
  intros (Hl & He & Hx & Hc & Hh).
  assert (Hcr : (observe c2 track_id (mirror (roi_line_y c1) p)).2 =
                opposite <$> (observe c1 track_id p).2).
  { rewrite !observe_decision, <- Hl, <- Hc, Hh, push_position_fmap, mirror_ordinates.
    apply crossing_of_ordinates_mirror. }
  split; [|done].
  destruct (observe_effect c1 track_id p) as (Hl1 & He1 & Hx1 & Hc1).
  destruct (observe_effect c2 track_id (mirror (roi_line_y c1) p)) as (Hl2 & He2 & Hx2 & Hc2).
  unfold mirrored. rewrite Hl1, Hl2, He1, He2, Hx1, Hx2, Hc1, Hc2, Hcr.
  split; [done|].
  split; [destruct (observe c1 track_id p).2 as [[]|]; cbn; repeat case_decide; try done; lia|].
  split; [destruct (observe c1 track_id p).2 as [[]|]; cbn; repeat case_decide; try done; lia|].
  split; [destruct (observe c1 track_id p).2 as [[]|]; cbn; by rewrite Hc|].
  intros t. destruct (decide (track_id = t)) as [<-|Hne].
  - by rewrite !observe_history, Hh, push_position_fmap.
  - rewrite !observe_history_ne by done. apply Hh.
Qed.

Lemma observe_all_mirrored c1 c2 obs :
  mirrored c1 c2 ->
  mirrored (observe_all c1 obs).1
    (observe_all c2 (prod_map id (mirror (roi_line_y c1)) <$> obs)).1 /\
  (observe_all c2 (prod_map id (mirror (roi_line_y c1)) <$> obs)).2 =
    prod_map id opposite <$> (observe_all c1 obs).2.
Proof.
  revert c1 c2. induction obs as [|[t p] obs IH]; intros c1 c2 Hm; [done|].
  cbn [fmap list_fmap prod_map fst snd id]. rewrite !observe_all_cons. cbn [fst snd].
  destruct (observe_mirrored c1 c2 t p Hm) as [Hm' Hcr].
  specialize (IH _ _ Hm'). rewrite (proj2 (observe_frame c1 t p)) in IH.
  destruct IH as [Hm'' Hev]. split; [done|].
  rewrite Hcr, Hev, fmap_app. f_equal. by destruct (observe c1 t p).2.
Qed.

(** X9. Neither direction is favoured. Reflecting every position about the
    line turns each ENTRY into an EXIT and each EXIT into an ENTRY, for the
    same tracks at the same steps, and exchanges the two counters. *)
Theorem directions_are_symmetric :
  forall c1 c2 obs,
    mirrored c1 c2 ->
    let r1 := observe_all c1 obs in
    let r2 := observe_all c2 (prod_map id (mirror (roi_line_y c1)) <$> obs) in
    r2.2 = prod_map id opposite <$> r1.2 /\
    entry_count r2.1 = exit_count r1.1 /\
    exit_count r2.1 = entry_count r1.1.
Proof.
  intros c1 c2 obs Hm r1 r2. subst r1 r2.
  destruct (observe_all_mirrored c1 c2 obs Hm) as [(_ & He & Hx & _) Hev].
  by rewrite Hev, He, Hx.
Qed.

Lemma directions_are_symmetric_witness :
  let obs := [(7, (5, 10)); (8, (0, 70)); (7, (6, 60)); (9, (1, 50)); (8, (0, 50))] in
  let r1 := observe_all counter50 obs in
  let r2 := observe_all counter50 (prod_map id (mirror 50) <$> obs) in
  r1.2 = [(7, ENTRY); (8, EXIT)] /\
  r2.2 = prod_map id opposite <$> r1.2 /\
  entry_count r2.1 = exit_count r1.1 /\
  exit_count r2.1 = entry_count r1.1.
Proof.
  intros obs r1 r2. split; [vm_compute; reflexivity|].
  apply (directions_are_symmetric counter50 counter50 obs).
  by repeat split.
Defined.

(** ** Boxes and frames *)

Lemma py_int_raises_iff (x : float) :
  (exists e, py_int x = inl e) <-> float_value x = None.
Proof.
  pose proof (py_int_float_value x) as H. destruct (float_value x) as [q|].
  - rewrite H. split; [by intros [e He]|done].
  - done.
Qed.

(** X10. The centre of a box is computed exactly when its four coordinates
    are finite numbers; a NaN or an infinite coordinate makes the conversion
    raise. *)
Theorem box_center_raises_iff_not_finite :
  forall x1 y1 x2 y2,
    (exists e, box_center (x1, y1, x2, y2) = inl e) <->
    float_value x1 = None \/ float_value y1 = None \/
    float_value x2 = None \/ float_value y2 = None.
Proof.
  intros x1 y1 x2 y2. rewrite <- !py_int_raises_iff. unfold box_center.
  destruct (py_int x1) as [e1|i1]; cbn [bind]; [split; eauto|].
  destruct (py_int y1) as [e2|j1]; cbn [bind]; [split; eauto|].
  destruct (py_int x2) as [e3|i2]; cbn [bind]; [split; eauto|].
  destruct (py_int y2) as [e4|j2]; cbn [bind]; [split; eauto|].
  split; [by intros [e He]|]. intros [[e He]|[[e He]|[[e He]|[e He]]]]; done.
Qed.

(** X11. The centre computed lies between the truncated corners of the box,
    in each coordinate, whichever corner comes first. *)
Theorem box_center_between_corners :
  forall x1 y1 x2 y2 p i1 j1 i2 j2,
    box_center (x1, y1, x2, y2) = inr p ->
    py_int x1 = inr i1 -> py_int y1 = inr j1 ->
    py_int x2 = inr i2 -> py_int y2 = inr j2 ->
    Z.min i1 i2 <= p.1 <= Z.max i1 i2 /\ Z.min j1 j2 <= p.2 <= Z.max j1 j2.
Proof.
  intros x1 y1 x2 y2 p i1 j1 i2 j2 H H1 H2 H3 H4. unfold box_center in H.
  rewrite H1, H2, H3, H4 in H. cbn in H. injection H as <-. cbn [fst snd].
  pose proof (Z.div_mod (i1 + i2) 2 ltac:(lia)).
  pose proof (Z.mod_pos_bound (i1 + i2) 2 ltac:(lia)).
  pose proof (Z.div_mod (j1 + j2) 2 ltac:(lia)).
  pose proof (Z.mod_pos_bound (j1 + j2) 2 ltac:(lia)).
  lia.
Qed.

Lemma box_center_between_corners_witness :
  Z.min 10 (-30) <= -10 <= Z.max 10 (-30) /\ Z.min 20 41 <= 30 <= Z.max 20 41.
Proof.
  apply (box_center_between_corners
           10.5%float 20%float (-30.75)%float 41%float (-10, 30) 10 20 (-30) 41);
    vm_compute; reflexivity.
Defined.






(** ** The main loop *)

Lemma run_loop_after_q c n frames1 f frames2 :
  Z.land (key f) 255 = 113 ->
  run_loop c n (frames1 ++ f :: frames2) = run_loop c n (frames1 ++ [f]).
Proof.
  intros Hq. revert c n. induction frames1 as [|g frames1 IH]; intros c n.
  - cbn [app run_loop]. destruct (process_frame c (calls f)) as [[c1 evs] [e|]]; [done|].
    destruct (written f) as [e|[]]; [done|]. destruct (shown f) as [e|[]]; [done|].
    by rewrite Hq.
  - cbn [app run_loop]. destruct (process_frame c (calls g)) as [[c1 evs] [e|]]; [done|].
    destruct (written g) as [e|[]]; [done|]. destruct (shown g) as [e|[]]; [done|].
    destruct (Z.land (key g) 255 =? 113); [done|]. by rewrite IH.
Qed.

Lemma run_loop_app c n frames1 rest :
  Forall (fun g => Z.land (key g) 255 <> 113) frames1 ->
  (run_loop c n frames1).2 = None ->
  run_loop c n (frames1 ++ rest) =
    let '(c1, n1, evs1, pr1, _) := run_loop c n frames1 in
    let '(c2, n2, evs2, pr2, e2) := run_loop c1 n1 rest in
    (c2, n2, evs1 ++ evs2, pr1 ++ pr2, e2).
Proof.
  intros Hq. revert c n. induction Hq as [|g frames1 Hg Hq IH]; intros c n.
  - intros _. cbn. by destruct (run_loop c n rest) as [[[[c2 n2] evs2] pr2] e2].
  - cbn [app run_loop]. destruct (process_frame c (calls g)) as [[c1 evs] [e|]]; [done|].
    destruct (written g) as [e|[]]; [done|]. destruct (shown g) as [e|[]]; [done|].
    apply Z.eqb_neq in Hg. rewrite Hg. specialize (IH c1 (n + 1)).
    destruct (run_loop c1 (n + 1) frames1) as [[[[c2 n2] evs2] pr2] e2].
    cbn [snd]. intros ->. rewrite (IH eq_refl).
    destruct (run_loop c2 n2 rest) as [[[[c3 n3] evs3] pr3] e3].
    by rewrite !app_assoc.
Qed.

Lemma run_loop_at_q c n f frames2 :
  Z.land (key f) 255 = 113 ->
  (run_loop c n (f :: frames2)).1.1.1.1 = (process_frame c (calls f)).1.1 /\
  (run_loop c n (f :: frames2)).1.1.1.2 = n + 1 /\
  (run_loop c n (f :: frames2)).1.1.2 = (process_frame c (calls f)).1.2.
Proof.
  intros Hq. cbn [run_loop].
  destruct (process_frame c (calls f)) as [[c1 evs] [e|]]; [done|].
  destruct (written f) as [e|[]]; [done|]. destruct (shown f) as [e|[]]; [done|].
  by rewrite Hq.
Qed.

(** X14. [run] stops at the first frame at which the key read has low byte
    113, the code of [q], whatever its higher bits. The frames after it
    change nothing, neither the counter nor what is printed. That frame
    itself is still processed: when the frames before it passed without [q]
    and without exception, the counter [run] leaves is the one
    [process_frame] leaves on that frame, the crossings printed are those of
    the frames before it followed by its own, and it is counted among the
    frames read. *)
Theorem run_stops_at_q :
  (forall c frames1 f frames2,
     Z.land (key f) 255 = 113 ->
     run c (frames1 ++ f :: frames2) = run c (frames1 ++ [f])) /\
  (forall c frames1 f frames2,
     Z.land (key f) 255 = 113 ->
     Forall (fun g => Z.land (key g) 255 <> 113) frames1 ->
     raised (run c frames1) = None ->
     let before := run c frames1 in
     let r := run c (frames1 ++ f :: frames2) in
     let at_q := process_frame (counter before) (calls f) in
     counter r = at_q.1.1 /\
     crossings_printed r = crossings_printed before ++ at_q.1.2 /\
     frames_read r = frames_read before + 1).
Proof.
  split.
  - intros c frames1 f frames2 Hq. unfold run. by rewrite run_loop_after_q.
  - intros c frames1 f frames2 Hq Hnq Hraised before r at_q. subst before r at_q.
    unfold run in *.
    pose proof (run_loop_app c 0 frames1 (f :: frames2) Hnq) as Happ.
    destruct (run_loop c 0 frames1) as [[[[c1 n1] evs1] pr1] e1].
    cbn [raised counter crossings_printed frames_read snd] in *.
    rewrite (Happ Hraised).
    destruct (run_loop_at_q c1 n1 f frames2 Hq) as (H1 & H2 & H3).
    destruct (run_loop c1 n1 (f :: frames2)) as [[[[c2 n2] evs2] pr2] e2].
    cbn [fst snd counter crossings_printed frames_read] in *.
    by rewrite H1, H2, H3.
Qed.

Lemma run_stops_at_q_witness :
  let down := mkTrackerResult [(0%float, 0%float, 10%float, 20%float)] (Some [7]) in
  let up := mkTrackerResult [(0%float, 50%float, 10%float, 70%float)] (Some [7]) in
  let far := mkTrackerResult [(0%float, 80%float, 10%float, 90%float)] (Some [8]) in
  let r := run counter50 [frame_input_of down (-1); frame_input_of up 1048689;
                          frame_input_of far (-1)] in
  r = run counter50 [frame_input_of down (-1); frame_input_of up 1048689] /\
  crossings_printed r = [(7, ENTRY)] /\
  entry_count (counter r) = 1 /\
  frames_read r = 2.
Proof.
  intros down up far r.
  pose proof (proj1 run_stops_at_q counter50 [frame_input_of down (-1)]
                (frame_input_of up 1048689) [frame_input_of far (-1)] eq_refl) as H1.
  destruct (proj2 run_stops_at_q counter50 [frame_input_of down (-1)]
              (frame_input_of up 1048689) [frame_input_of far (-1)] eq_refl)
    as (H2 & H3 & H4).
  - repeat constructor. done.
  - vm_compute. reflexivity.
  - cbn [app] in H1, H2, H3, H4. fold r in H1, H2, H3, H4.
    split; [exact H1|]. rewrite H2, H3, H4.
    vm_compute. by repeat split.
Defined.

Lemma accounted_run_loop c n frames :
  accounted c (run_loop c n frames).1.1.1.1 (run_loop c n frames).1.1.2.
Proof.
  revert c n. induction frames as [|f frames IH]; intros c n; [apply accounted_refl|].
  cbn [run_loop]. pose proof (accounted_process_frame c (calls f)) as Hf.
  destruct (process_frame c (calls f)) as [[c1 evs] [e|]]; cbn [fst snd] in *; [done|].
  destruct (written f) as [e|[]]; [done|]. destruct (shown f) as [e|[]]; [done|].
  destruct (Z.land (key f) 255 =? 113); [done|].
  specialize (IH c1 (n + 1)).
  destruct (run_loop c1 (n + 1) frames) as [[[[c2 n2] evs2] pr2] e2]. cbn [fst snd] in *.
  by eapply accounted_trans.
Qed.

(** X15. On a counter just built, what [run] prints is consistent: the
    counters it leaves equal the numbers of ENTRY and of EXIT lines printed,
    no identifier is printed twice, and the results summary, printed exactly
    when no exception ended the loop, shows these numbers and their
    difference. *)
Theorem run_results_match_log :
  forall env roi conf c frames,
    init env roi conf = inr c ->
    let r := run c frames in
    let entries := count_direction ENTRY (crossings_printed r) in
    let exits := count_direction EXIT (crossings_printed r) in
    entry_count (counter r) = entries /\
    exit_count (counter r) = exits /\
    NoDup (crossings_printed r).*1 /\
    results_printed r =
      match raised r with
      | None => Some (entries, exits, entries - exits)
      | Some _ => None
      end.
Proof.
  intros env roi conf c frames Hinit r entries exits. subst r entries exits.
  apply init_fresh in Hinit as (He & Hx & _).
  pose proof (accounted_run_loop c 0 frames) as (He' & Hx' & _ & Hnd & _).
  unfold run. destruct (run_loop c 0 frames) as [[[[c' n] evs] pr] e].
  cbn [fst snd counter crossings_printed results_printed raised] in *.
  rewrite He in He'. rewrite Hx in Hx'.
  split; [lia|]. split; [lia|]. split; [done|].
  destruct e; [done|]. unfold summary. do 2 f_equal; [f_equal|]; lia.
Qed.

Lemma run_results_match_log_witness :
  let down := mkTrackerResult [(0%float, 0%float, 10%float, 20%float)] (Some [7]) in
  let up := mkTrackerResult [(0%float, 50%float, 10%float, 70%float)] (Some [7]) in
  let r := run counter50 [frame_input_of down (-1); frame_input_of up (-1);
                          frame_input_of down (-1); frame_input_of up (-1)] in
  crossings_printed r = [(7, ENTRY)] /\
  entry_count (counter r) = 1 /\ exit_count (counter r) = 0 /\
  results_printed r = Some (1, 0, 1).
Proof.
  intros down up r.
  assert (Hlog : crossings_printed r = [(7, ENTRY)]) by (vm_compute; reflexivity).
  assert (Hraised : raised r = None) by (vm_compute; reflexivity).
  destruct (run_results_match_log env100 0.5%float 0.5%float counter50
              [frame_input_of down (-1); frame_input_of up (-1);
               frame_input_of down (-1); frame_input_of up (-1)])
    as (He & Hx & _ & Hres).
  - vm_compute. reflexivity.
  - fold r in He, Hx, Hres. rewrite Hlog in He, Hx, Hres. rewrite Hraised in Hres.
    split; [done|]. split; [exact He|]. split; [exact Hx|]. exact Hres.
Defined.

Lemma run_loop_progress c n frames :
  (run_loop c n frames).2 = None ->
  (run_loop c n frames).1.1.1.2 = n + Z.of_nat (length (frames_played frames)) /\
  (run_loop c n frames).1.2 =
    filter (fun k => k mod 30 = 0) (seqZ (n + 1) (Z.of_nat (length (frames_played frames)))).
Proof.
  revert c n. induction frames as [|f frames IH]; intros c n.
  - cbn. intros _. split; [lia|done].
  - cbn [run_loop frames_played].
    destruct (process_frame c (calls f)) as [[c1 evs] [e|]]; [done|].
    destruct (written f) as [e|[]]; [done|]. destruct (shown f) as [e|[]]; [done|].
    assert (Hhead : forall m,
              filter (fun k => k mod 30 = 0) (seqZ (n + 1) (Z.of_nat (S m))) =
              (if (n + 1) mod 30 =? 0 then [n + 1] else []) ++
              filter (fun k => k mod 30 = 0) (seqZ (n + 1 + 1) (Z.of_nat m))).
    { intros m. rewrite seqZ_cons by lia.
      replace (Z.pred (Z.of_nat (S m))) with (Z.of_nat m) by lia.
      replace (Z.succ (n + 1)) with (n + 1 + 1) by lia.
      destruct (Z.eqb_spec ((n + 1) mod 30) 0) as [E|E].
      - by rewrite filter_cons_True.
      - by rewrite filter_cons_False. }
    destruct (Z.land (key f) 255 =? 113).
    + cbn. intros _. split; [lia|].
      rewrite (Hhead 0%nat). cbn. by rewrite app_nil_r.
    + specialize (IH c1 (n + 1)).
      destruct (run_loop c1 (n + 1) frames) as [[[[c2 n2] evs2] pr2] e2].
      cbn [fst snd length] in *. intros ->. destruct (IH eq_refl) as [-> ->].
      split; [lia|]. by rewrite Hhead.
Qed.

(** X16. When no exception ends it, [run] reads the frames up to and
    including the first one at which [q] is pressed, all of them if there
    is none, and prints a progress line at every thirtieth frame read and at
    no other. *)
Theorem run_reads_until_q :
  forall c frames,
    raised (run c frames) = None ->
    frames_read (run c frames) = Z.of_nat (length (frames_played frames)) /\
    progress_printed (run c frames) =
      filter (fun k => k mod 30 = 0) (seqZ 1 (frames_read (run c frames))).
Proof.
  intros c frames. unfold run.
  pose proof (run_loop_progress c 0 frames) as H.
  destruct (run_loop c 0 frames) as [[[[c' n] evs] pr] e].
  cbn [fst snd raised frames_read progress_printed] in *.
  intros He. destruct (H He) as [-> ->]. by rewrite Z.add_0_l.
Qed.

Lemma run_reads_until_q_witness :
  let still := mkTrackerResult [] None in
  let frames := replicate 64 (frame_input_of still (-1)) ++
                [frame_input_of still 113; frame_input_of still (-1)] in
  frames_read (run counter50 frames) = 65 /\
  progress_printed (run counter50 frames) = [30; 60].
Proof.
  intros still frames.
  destruct (run_reads_until_q counter50 frames) as [H1 H2].
  - vm_compute. reflexivity.
  - rewrite H2, H1. vm_compute. by split.
Defined.

(** ** The detection scripts *)

Lemma person_boxes_detections rows out :
  person_boxes rows = inr out ->
  exists out', person_detections rows = inr out' /\ Forall2 truncation_of out out'.
Proof.
  revert out. induction rows as [|[[[[[x1 y1] x2] y2] conf] cls] rows IH]; intros out.
  - cbn. intros [= <-]. exists []. by split.
  - cbn [person_boxes person_detections].
    destruct (py_int cls) as [e|k]; cbn [bind]; [done|].
    destruct ((k =? 0) && (conf_threshold <? conf)%float); [|apply IH].
    intros H.
    apply bind_inr in H as (i1 & H1 & H). apply bind_inr in H as (j1 & H2 & H).
    apply bind_inr in H as (i2 & H3 & H). apply bind_inr in H as (j2 & H4 & H).
    apply bind_inr in H as (rest & Hrest & H). injection H as <-.
    destruct (IH rest Hrest) as (rest' & -> & Hall). cbn [bind].
    exists (((x1, y1, x2, y2), conf) :: rest'). split; [done|].
    constructor; [by repeat split|done].
Qed.

(** X17. The two scripts select the same detections: whenever the filter of
    [footfall_counter.py] returns, the filter of [tracking.py] returns too,
    with as many boxes, in the same order, each with the same confidence, and
    the former's corners are the [int] of the latter's. *)
Theorem scripts_select_the_same_rows :
  forall rows out,
    person_boxes rows = inr out ->
    exists out',
      person_detections rows = inr out' /\
      length out = length out' /\
      Forall2 truncation_of out out'.
Proof.
  intros rows out H. destruct (person_boxes_detections rows out H) as (out' & H' & Hall).
  exists out'. split; [done|]. split; [by eapply Forall2_length|done].
Qed.

Lemma scripts_select_the_same_rows_witness :
  let rows := [(10.5%float, 20%float, 30.75%float, 41%float, 0.75%float, 0%float);
               (1%float, 2%float, 3%float, 4%float, 0.25%float, 0%float);
               (5.5%float, 6%float, 7%float, 8%float, 0.5%float, 2%float)] in
  person_boxes rows = inr [(10, 20, 30, 41, 0.75%float)] /\
  exists out',
    person_detections rows = inr out' /\
    Forall2 truncation_of [(10, 20, 30, 41, 0.75%float)] out'.
Proof.
  intros rows.
  assert (H : person_boxes rows = inr [(10, 20, 30, 41, 0.75%float)])
    by (vm_compute; reflexivity).
  split; [exact H|].
  destruct (scripts_select_the_same_rows rows _ H) as (out' & H' & _ & Hall).
  by exists out'.
Defined.

Lemma person_detections_filter rows out :
  person_detections rows = inr out ->
  out = (fun d : detection => let '(x1, y1, x2, y2, conf, _) := d in ((x1, y1, x2, y2), conf))
          <$> filter (fun d => is_person d = true) rows.
Proof.
  revert out. induction rows as [|[[[[[x1 y1] x2] y2] conf] cls] rows IH]; intros out.
  - cbn. by intros [= <-].
  - cbn [person_detections]. destruct (py_int cls) as [e|k] eqn:Hk; cbn [bind]; [done|].
    destruct ((k =? 0) && (conf_threshold <? conf)%float) eqn:Htest.
    + intros H. apply bind_inr in H as (rest & Hrest & H). injection H as <-.
      rewrite filter_cons_True by (unfold is_person; by rewrite Hk). cbn. f_equal. by apply IH.
    + intros H. rewrite filter_cons_False by (unfold is_person; rewrite Hk, Htest; done).
      by apply IH.
Qed.

Lemma person_detections_raises rows :
  (exists e, person_detections rows = inl e) <->
  Exists (fun d : detection => float_value d.2 = None) rows.
Proof.
  induction rows as [|[[[[[x1 y1] x2] y2] conf] cls] rows IH].
  - cbn. split; [by intros [e He]|by intros H%Exists_nil].
  - rewrite Exists_cons. cbn [person_detections snd].
    rewrite <- (py_int_raises_iff cls), <- IH.
    destruct (py_int cls) as [e|k]; cbn [bind]; [split; eauto|].
    destruct ((k =? 0) && (conf_threshold <? conf)%float).
    + destruct (person_detections rows) as [e|rest]; cbn [bind].
      * split; eauto.
      * split; [by intros [e He]|]. by intros [[e He]|[e He]].
    + split; [eauto|]. by intros [[e He]|H].
Qed.

(** X18. The filter of [tracking.py] raises exactly when the class of some
    row is NaN or infinite. Otherwise it returns, in order, the box and the
    confidence of exactly the rows whose class truncates to 0 and whose
    confidence is strictly above 0.4: a confidence of exactly 0.4, or NaN, is
    not enough. *)
Theorem person_detections_keeps_persons :
  (forall rows,
     (exists e, person_detections rows = inl e) <->
     Exists (fun d : detection => float_value d.2 = None) rows) /\
  (forall rows out,
     person_detections rows = inr out ->
     out = (fun d : detection =>
              let '(x1, y1, x2, y2, conf, _) := d in ((x1, y1, x2, y2), conf))
             <$> filter (fun d => is_person d = true) rows) /\
  (forall x1 y1 x2 y2 cls,
     is_person (x1, y1, x2, y2, conf_threshold, cls) = false /\
     is_person (x1, y1, x2, y2, nan, cls) = false).
Proof.
  split; [apply person_detections_raises|]. split; [apply person_detections_filter|].
  intros x1 y1 x2 y2 cls. unfold is_person.
  destruct (py_int cls) as [e|k]; [done|]. by rewrite !andb_false_r.
Qed.

Lemma person_detections_keeps_persons_witness :
  let rows := [(10.5%float, 20%float, 30.75%float, 41%float, 0.75%float, 0%float);
               (1%float, 2%float, 3%float, 4%float, conf_threshold, 0%float);
               (5.5%float, 6%float, 7%float, 8%float, 0.5%float, 2%float)] in
  [((10.5%float, 20%float, 30.75%float, 41%float), 0.75%float)] =
    (fun d : detection =>
       let '(x1, y1, x2, y2, conf, _) := d in ((x1, y1, x2, y2), conf))
      <$> filter (fun d => is_person d = true) rows.
Proof.
  intros rows.
  apply (proj1 (proj2 person_detections_keeps_persons) rows).
  vm_compute. reflexivity.
Defined.
